(** * A shallow embedding of the Vespa memory index orchestrator

    Sources embedded here:
    - [searchlib/src/vespa/searchlib/memoryindex/memory_index.cpp]
      ([MemoryIndex], [MemTermBlueprint], [CreateBlueprintVisitor]);
    - [searchcore/src/vespa/searchcore/proton/common/transient_memory_usage_provider.cpp].

    Machine integers are values of [N] with their wrap-around written out.
    The collaborators of [MemoryIndex] (the two [DocumentInverter]s, the two
    sequenced executors, the field index collection, the logger) are
    external objects: every call the orchestrator makes on them is recorded,
    in program order, as an [Event].  Headers and classes that the two
    source files use but that are not among the sources are modelled from
    the specification and marked as such. *)

From Stdlib Require Import NArith Lia List String.
From stdpp Require Import base option list gmap strings.

Local Open Scope N_scope.

(** ** Machine integers *)

Definition UINT32_MOD : N := 2 ^ 32.

(** [uint32_t] arithmetic wraps modulo [2^32]. *)
Definition wrap32 (n : N) : N := n mod UINT32_MOD.

(** ** transient_memory_usage_provider.cpp *)

Module TransientMemoryUsageProvider.

(** The object has one member, [std::atomic<size_t> _transient_memory_usage];
    [load] and [store] with relaxed ordering read and write that cell.  A
    [size_t] is a value of [N]; the cell holds what is stored, unchanged. *)
Record t : Type := Build { _transient_memory_usage : N }.

(** The constructor initialises the cell with [0u]. *)
Definition new : t := {| _transient_memory_usage := 0 |}.

Definition get_transient_memory_usage (p : t) : N :=
  _transient_memory_usage p.

Definition set_transient_memory_usage (transient_memory_usage : N) (p : t) : t :=
  {| _transient_memory_usage := transient_memory_usage |}.

(** A history of stores applied in call order. *)
Definition set_all (xs : list N) (p : t) : t :=
  fold_left (fun q x => set_transient_memory_usage x q) xs p.

End TransientMemoryUsageProvider.

(** ** The schema collaborator *)

Module Schema.

(** Modelled from the spec: [index/schema.h] is not among the sources.  The
    spec describes a schema as "an ordered set of indexed fields, each with
    a stable field id", exposing "field-id lookup by name, an unknown field
    sentinel, and a schema-intersection operation".  An indexed field
    carries its name and its type configuration; its field id is its
    position. *)
Record IndexField : Type := mkIndexField {
  getName : string;
  getDataType : N;
  getCollectionType : N
}.

#[global] Instance IndexField_eq_dec : EqDecision IndexField.
Proof. solve_decision. Defined.

Record t : Type := mk { _indexFields : list IndexField }.

#[global] Instance eq_dec : EqDecision t.
Proof. solve_decision. Defined.

(** Modelled from the spec: the "unknown field" sentinel, the largest
    [uint32_t]. *)
Definition UNKNOWN_FIELD_ID : N := UINT32_MOD - 1.

(** Modelled from the spec: the number of indexed fields. *)
Definition getNumIndexFields (s : t) : N :=
  N.of_nat (length (_indexFields s)).

(** Position of the first field called [name] in [fs], counting from [i]. *)
Fixpoint find_from (name : string) (fs : list IndexField) (i : N) : option N :=
  match fs with
  | [] => None
  | f :: fs' =>
      if bool_decide (getName f = name) then Some i
      else find_from name fs' (N.succ i)
  end.

(** Modelled from the spec: field-id lookup by name. *)
Definition getIndexFieldId (name : string) (s : t) : N :=
  match find_from name (_indexFields s) 0 with
  | Some i => i
  | None => UNKNOWN_FIELD_ID
  end.

(** [rhs] holds a field equal to [f]: same name, same configuration. *)
Definition has_field (rhs : t) (f : IndexField) : bool :=
  bool_decide (f ∈ _indexFields rhs).

(** Modelled from the spec: schema intersection keeps, in the order of
    [lhs], the fields that [rhs] has as well; the kept fields are
    renumbered by their new position. *)
Definition intersect (lhs rhs : t) : t :=
  mk (List.filter (has_field rhs) (_indexFields lhs)).

(** Modelled from the spec: [operator==], equality of the field lists. *)
Definition eqb (a b : t) : bool := bool_decide (a = b).

End Schema.

Module IndexIterator.

(** Modelled from the spec: [SchemaUtil::IndexIterator]
    ([index/schemautil.h]) is not among the sources.  It is a cursor over
    "every field id known to" a schema: the schema and a position. *)
Record t : Type := mk { _schema : Schema.t; _index : N }.

(** Modelled from the spec: [IndexIterator(schema)] starts at the first
    field. *)
Definition begin (schema : Schema.t) : t := mk schema 0.

(** Modelled from the spec: the cursor is valid while it is on a field. *)
Definition isValid (i : t) : bool :=
  _index i <? Schema.getNumIndexFields (_schema i).

(** Modelled from the spec: the field id under the cursor. *)
Definition getIndex (i : t) : N := _index i.

(** Modelled from the spec: [++i]. *)
Definition next (i : t) : t := mk (_schema i) (N.succ (_index i)).

(** Modelled from the spec: the name of the field under the cursor. *)
Definition getName (i : t) : option string :=
  Schema.getName <$> (Schema._indexFields (_schema i) !! N.to_nat (_index i)).

(** Modelled from the spec: [IndexIterator(schema, rhs)] positions the new
    cursor on the "counterpart" of [rhs] in [schema], the field of the same
    name; it is not valid when there is none. *)
Definition counterpart (schema : Schema.t) (rhs : t) : t :=
  match getName rhs with
  | Some name => mk schema (Schema.getIndexFieldId name schema)
  | None => mk schema Schema.UNKNOWN_FIELD_ID
  end.

End IndexIterator.

(** ** Collaborators of the orchestrator *)

(** Modelled from the spec: the document object model is an external
    collaborator; [memory_index.cpp] only hands a document to the inverter
    and renders it in a log line ([doc.getId().toString()],
    [doc.toString()]). *)
Record Document : Type := mkDocument {
  doc_getId : string;
  doc_toString : string
}.

(** Address of a [DocumentInverter] object. *)
Definition InverterPtr : Type := N.

(** Address of the [FieldIndexCollection] object. *)
Definition FieldIndexesPtr : Type := N.

(** An [IDestructorCallback] shared pointer, the caller's completion token. *)
Definition DoneToken : Type := N.

Inductive LogLevel : Type := debug | warning.

(** The [LOG] lines of [memory_index.cpp], with their arguments. *)
Inductive LogLine : Type :=
| IgnoringInsert (docIdString : string) (docId : N) (docText : string)
| IgnoringRemove (docId : N)
| SearchingFor (termStr fieldName : string)
| ReturnBooleanMatchIteratorWrapper (fieldId docCount : N)
| ReturnPostingIterator (fieldId docCount : N).

(** What the orchestrator does to the outside world.  Staged postings change
    only through [InvertDocument] and [RemoveDocument], committed postings
    only through [PushDocuments] (which targets [*_fieldIndexes]). *)
Inductive Event : Type :=
| Log (level : LogLevel) (line : LogLine)
| InvertDocument (inverter : InverterPtr) (docId : N) (doc : Document)
| RemoveDocument (inverter : InverterPtr) (docId : N)
| InvertThreadsSync
| PushThreadsSync
| PushDocuments (inverter : InverterPtr) (fieldIndexes : FieldIndexesPtr)
    (onWriteDone : DoneToken)
| GetFieldIndex (fieldId : N)
| TakeGenerationGuard (fieldId : N)
| FindFrozen (fieldId : N) (termStr : string).

(** ** MemoryIndex *)

(** The members of [MemoryIndex], as the constructor's initialiser list
    names them.  [_inverter0] and [_inverter1] own the two inverters,
    [_inverter] is the raw pointer to the active one and [_fieldIndexes]
    owns the field index collection.  The executor references, the mutex
    and the static memory footprint play no part in the operations below
    and are left out; the content of the field index collection is an
    argument of [createBlueprint]. *)
Record MemoryIndex : Type := mkMemoryIndex {
  _schema : Schema.t;
  _inverter0 : InverterPtr;
  _inverter1 : InverterPtr;
  _inverter : InverterPtr;
  _fieldIndexes : FieldIndexesPtr;
  _frozen : bool;
  _maxDocId : N;
  _numDocs : N;
  _hiddenFields : list bool;
  _prunedSchema : option Schema.t;
  _indexedDocs : gset N
}.

(** An operation returns the new state and the events it emitted. *)
Definition Effect : Type := MemoryIndex * list Event.

(** The constructor: [inverter0], [inverter1] and [fieldIndexes] are the
    addresses returned by the three [std::make_unique] calls. *)
Definition MemoryIndex_new (schema : Schema.t) (inverter0 inverter1 : InverterPtr)
    (fieldIndexes : FieldIndexesPtr) : MemoryIndex :=
  {| _schema := schema;
     _inverter0 := inverter0;
     _inverter1 := inverter1;
     _inverter := inverter0;
     _fieldIndexes := fieldIndexes;
     _frozen := false;
     _maxDocId := 0;
     _numDocs := 0;
     _hiddenFields := replicate (N.to_nat (Schema.getNumIndexFields schema)) false;
     _prunedSchema := None;
     _indexedDocs := ∅ |}.

(** Modelled from the spec: [memory_index.h], which defines
    [updateMaxDocId], is not among the sources.  The index "tracks the
    maximum id seen". *)
Definition updateMaxDocId (docId : N) (s : MemoryIndex) : MemoryIndex :=
  if _maxDocId s <? docId
  then {| _schema := _schema s; _inverter0 := _inverter0 s;
          _inverter1 := _inverter1 s; _inverter := _inverter s;
     _fieldIndexes := _fieldIndexes s;
          _frozen := _frozen s; _maxDocId := docId; _numDocs := _numDocs s;
          _hiddenFields := _hiddenFields s; _prunedSchema := _prunedSchema s;
          _indexedDocs := _indexedDocs s |}
  else s.

(** Assignments to single members. *)
Definition set_numDocs (n : N) (s : MemoryIndex) : MemoryIndex :=
  {| _schema := _schema s; _inverter0 := _inverter0 s;
     _inverter1 := _inverter1 s; _inverter := _inverter s;
     _fieldIndexes := _fieldIndexes s;
     _frozen := _frozen s; _maxDocId := _maxDocId s; _numDocs := n;
     _hiddenFields := _hiddenFields s; _prunedSchema := _prunedSchema s;
     _indexedDocs := _indexedDocs s |}.

Definition set_indexedDocs (d : gset N) (s : MemoryIndex) : MemoryIndex :=
  {| _schema := _schema s; _inverter0 := _inverter0 s;
     _inverter1 := _inverter1 s; _inverter := _inverter s;
     _fieldIndexes := _fieldIndexes s;
     _frozen := _frozen s; _maxDocId := _maxDocId s; _numDocs := _numDocs s;
     _hiddenFields := _hiddenFields s; _prunedSchema := _prunedSchema s;
     _indexedDocs := d |}.

Definition set_inverter (p : InverterPtr) (s : MemoryIndex) : MemoryIndex :=
  {| _schema := _schema s; _inverter0 := _inverter0 s;
     _inverter1 := _inverter1 s; _inverter := p;
     _fieldIndexes := _fieldIndexes s;
     _frozen := _frozen s; _maxDocId := _maxDocId s; _numDocs := _numDocs s;
     _hiddenFields := _hiddenFields s; _prunedSchema := _prunedSchema s;
     _indexedDocs := _indexedDocs s |}.

Definition set_frozen (b : bool) (s : MemoryIndex) : MemoryIndex :=
  {| _schema := _schema s; _inverter0 := _inverter0 s;
     _inverter1 := _inverter1 s; _inverter := _inverter s;
     _fieldIndexes := _fieldIndexes s;
     _frozen := b; _maxDocId := _maxDocId s; _numDocs := _numDocs s;
     _hiddenFields := _hiddenFields s; _prunedSchema := _prunedSchema s;
     _indexedDocs := _indexedDocs s |}.

Definition set_pruning (p : option Schema.t) (h : list bool) (s : MemoryIndex)
  : MemoryIndex :=
  {| _schema := _schema s; _inverter0 := _inverter0 s;
     _inverter1 := _inverter1 s; _inverter := _inverter s;
     _fieldIndexes := _fieldIndexes s;
     _frozen := _frozen s; _maxDocId := _maxDocId s; _numDocs := _numDocs s;
     _hiddenFields := h; _prunedSchema := p;
     _indexedDocs := _indexedDocs s |}.

(** Modelled from the spec: [incNumDocs] ([memory_index.h]) "increments the
    live document count", an unsigned 32-bit counter like the document id:
    [++_numDocs]. *)
Definition incNumDocs (s : MemoryIndex) : MemoryIndex :=
  set_numDocs (wrap32 (_numDocs s + 1)) s.

(** Modelled from the spec: [decNumDocs] ([memory_index.h]) "decrements the
    live document count": [--_numDocs]. *)
Definition decNumDocs (s : MemoryIndex) : MemoryIndex :=
  set_numDocs (wrap32 (_numDocs s + (UINT32_MOD - 1))) s.

(** [MemoryIndex::insertDocument]. *)
Definition insertDocument (docId : N) (doc : Document) (s : MemoryIndex) : Effect :=
  if _frozen s then
    (s, [Log warning (IgnoringInsert (doc_getId doc) docId (doc_toString doc))])
  else
    let s1 := updateMaxDocId docId s in
    let ev := [InvertDocument (_inverter s1) docId doc] in
    (* [_indexedDocs.insert(docId).second]: true when docId was not there *)
    let inserted := bool_decide (docId ∉ _indexedDocs s1) in
    let s2 := set_indexedDocs ({[docId]} ∪ _indexedDocs s1) s1 in
    if inserted then (incNumDocs s2, ev) else (s2, ev).

(** [MemoryIndex::removeDocument]. *)
Definition removeDocument (docId : N) (s : MemoryIndex) : Effect :=
  if _frozen s then
    (s, [Log warning (IgnoringRemove docId)])
  else
    let ev := [RemoveDocument (_inverter s) docId] in
    if bool_decide (docId ∈ _indexedDocs s) then
      (decNumDocs (set_indexedDocs (_indexedDocs s ∖ {[docId]}) s), ev)
    else (s, ev).

(** [MemoryIndex::flipInverter]. *)
Definition flipInverter (s : MemoryIndex) : MemoryIndex :=
  set_inverter
    (if negb (_inverter s =? _inverter0 s) then _inverter0 s else _inverter1 s) s.

(** [MemoryIndex::commit]. *)
Definition commit (onWriteDone : DoneToken) (s : MemoryIndex) : Effect :=
  (flipInverter s,
   [InvertThreadsSync; PushThreadsSync; PushDocuments (_inverter s) (_fieldIndexes s) onWriteDone]).

(** [MemoryIndex::freeze]. *)
Definition freeze (s : MemoryIndex) : MemoryIndex := set_frozen true s.

(** How a modelled call can end.  [AssertionFailed] is a failed [assert],
    [UndefinedBehaviour] an out-of-range access the C++ code does not
    check, [OutOfFuel] a loop cut short by the model's iteration bound. *)
Inductive Outcome (A : Type) : Type :=
| Ok (a : A)
| AssertionFailed
| UndefinedBehaviour
| OutOfFuel.
Arguments Ok {A} a.
Arguments AssertionFailed {A}.
Arguments UndefinedBehaviour {A}.
Arguments OutOfFuel {A}.

Definition bind {A B : Type} (m : Outcome A) (k : A -> Outcome B) : Outcome B :=
  match m with
  | Ok a => k a
  | AssertionFailed => AssertionFailed
  | UndefinedBehaviour => UndefinedBehaviour
  | OutOfFuel => OutOfFuel
  end.

(** The loop of [pruneRemovedFields]:
    [for (; i.isValid(); ++i) { ... _hiddenFields[packedIndex] = !wi.isValid(); }]
    with [prunedSchema] the freshly stored [*_prunedSchema]. *)
Fixpoint pruneLoop (fuel : nat) (prunedSchema : Schema.t) (i : IndexIterator.t)
    (hiddenFields : list bool) : Outcome (list bool) :=
  if IndexIterator.isValid i then
    match fuel with
    | O => OutOfFuel
    | S fuel' =>
        let packedIndex := IndexIterator.getIndex i in
        if packedIndex <? N.of_nat (length hiddenFields) then
          let wi := IndexIterator.counterpart prunedSchema i in
          pruneLoop fuel' prunedSchema (IndexIterator.next i)
            (<[N.to_nat packedIndex := negb (IndexIterator.isValid wi)]> hiddenFields)
        else AssertionFailed
    end
  else Ok hiddenFields.

(** The schema pruning works from: [*_prunedSchema] when set, else
    [_schema]. *)
Definition effectiveSchema (s : MemoryIndex) : Schema.t :=
  match _prunedSchema s with
  | Some pruned => pruned
  | None => _schema s
  end.

(** [MemoryIndex::pruneRemovedFields].  Both branches of the source compute
    the intersection of the schema in force with the argument and return
    early when nothing changed. *)
Definition pruneRemovedFields (schema : Schema.t) (s : MemoryIndex)
  : Outcome MemoryIndex :=
  let changed :=
    match _prunedSchema s with
    | None =>
        let newSchema := Schema.intersect (_schema s) schema in
        if Schema.eqb (_schema s) newSchema then None else Some newSchema
    | Some pruned =>
        let newSchema := Schema.intersect pruned schema in
        if Schema.eqb pruned newSchema then None else Some newSchema
    end in
  match changed with
  | None => Ok s
  | Some newSchema =>
      bind (pruneLoop (length (Schema._indexFields (_schema s))) newSchema
              (IndexIterator.begin (_schema s)) (_hiddenFields s))
           (fun hidden => Ok (set_pruning (Some newSchema) hidden s))
  end.

(** [MemoryIndex::getPrunedSchema]. *)
Definition getPrunedSchema (s : MemoryIndex) : option Schema.t := _prunedSchema s.

(** ** Query side: field indexes, blueprints and search iterators *)

(** Modelled from the spec: the posting-list and feature-store structures
    are "abstract ordered containers with generation-protected iteration".
    A posting associates a document id with a reference into the feature
    store; a frozen posting-list cursor is the ordered run of postings it
    ranges over. *)
Record Posting : Type := mkPosting { posting_docId : N; posting_features : N }.

Definition ConstIterator : Type := list Posting.

(** Modelled from the spec: [ConstIterator::size()] and
    [ConstIterator::valid()], the number of postings and whether there is
    one under the cursor. *)
Definition pitr_size (pitr : ConstIterator) : N := N.of_nat (length pitr).
Definition pitr_valid (pitr : ConstIterator) : bool :=
  match pitr with [] => false | _ :: _ => true end.

(** Modelled from the spec: a [GenerationHandler::Guard] "pins the current
    generation"; a default-constructed guard pins nothing. *)
Record Guard : Type := mkGuard { guard_generation : option N }.

Module FieldIndex.

(** Modelled from the spec: [field_index.h] is not among the sources.  A
    field index "owns a term dictionary mapping term text to a posting
    list, plus a feature store", read through generation-guarded
    snapshots. *)
Record t : Type := mk {
  _dict : gmap string (list Posting);
  _featureStore : N;
  _generation : N
}.

(** Modelled from the spec: the guard pins the current generation. *)
Definition takeGenerationGuard (fi : t) : Guard := mkGuard (Some (_generation fi)).

(** Modelled from the spec: frozen dictionary lookup; a cursor over
    nothing when the term has no postings. *)
Definition findFrozen (termStr : string) (fi : t) : ConstIterator :=
  default [] (_dict fi !! termStr).

(** Modelled from the spec: the feature store of the field. *)
Definition getFeatureStore (fi : t) : N := _featureStore fi.

End FieldIndex.

(** Modelled from the spec: the [FieldIndexCollection] holds one field
    index "per indexed field", addressed by field id. *)
Definition FieldIndexCollection : Type := list FieldIndex.t.

(** Modelled from the spec: [getFieldIndex(fieldId)]; no field index
    outside the collection. *)
Definition getFieldIndex (fieldId : N) (fic : FieldIndexCollection)
  : option FieldIndex.t := fic !! N.to_nat fieldId.

(** Modelled from the spec: [queryeval::FieldSpec], the query's view of a
    field, with its name and "whether the field is configured as a filter
    field". *)
Record FieldSpec : Type := mkFieldSpec {
  fs_getName : string;
  fs_getFieldId : N;
  fs_getHandle : N;
  fs_isFilter : bool
}.

(** Modelled from the spec: the match-data handles an iterator fills in. *)
Definition TermFieldMatchDataArray : Type := list N.

(** The term nodes [CreateBlueprintVisitor] overrides [visit] for.
    Modelled from the spec: a node carries the text
    [queryeval::termAsString] renders it to. *)
Inductive Node : Type :=
| LocationTerm (term : string)
| PrefixTerm (term : string)
| RangeTerm (term : string)
| StringTerm (term : string)
| SubstringTerm (term : string)
| SuffixTerm (term : string)
| RegExpTerm (term : string)
| NumberTerm (term : string)
| PredicateQuery.

(** Modelled from the spec: the text [queryeval::termAsString] renders a
    term node to. *)
Definition termAsString (n : Node) : string :=
  match n with
  | LocationTerm s | PrefixTerm s | RangeTerm s | StringTerm s
  | SubstringTerm s | SuffixTerm s | RegExpTerm s | NumberTerm s => s
  | PredicateQuery => ""
  end.

(** The kinds that go straight to [visitTerm]. *)
Definition isTextMatching (n : Node) : bool :=
  match n with
  | NumberTerm _ | PredicateQuery => false
  | _ => true
  end.

(** Modelled from the spec: [Blueprint::HitEstimate], the "cost estimate
    derived from the posting list's size and validity". *)
Record HitEstimate : Type := mkHitEstimate { estHits : N; empty : bool }.

Module MemTermBlueprint.

(** The members of [MemTermBlueprint], with the estimate that
    [setEstimate] stores in the [SimpleLeafBlueprint] base. *)
Record t : Type := mk {
  _field : FieldSpec;
  _genGuard : Guard;
  _pitr : ConstIterator;
  _featureStore : N;
  _fieldId : N;
  _useBitVector : bool;
  _estimate : HitEstimate
}.

(** The constructor: the members are initialised, the guard is moved in,
    and the estimate is computed from the cursor and stored. *)
Definition new (genGuard : Guard) (pitr : ConstIterator) (featureStore : N)
    (field : FieldSpec) (fieldId : N) (useBitVector : bool) : t :=
  let estimate := mkHitEstimate (pitr_size pitr) (negb (pitr_valid pitr)) in
  {| _field := field;
     _genGuard := genGuard;
     _pitr := pitr;
     _featureStore := featureStore;
     _fieldId := fieldId;
     _useBitVector := useBitVector;
     _estimate := estimate |}.

End MemTermBlueprint.

(** Modelled from the spec: the search iterators the blueprints create,
    as the constructor calls of [createLeafSearch] build them. *)
Inductive SearchIterator : Type :=
| EmptySearch
| PostingIterator (pitr : ConstIterator) (featureStore fieldId : N)
    (tfmda : TermFieldMatchDataArray)
| BooleanMatchIteratorWrapper (search : SearchIterator)
    (tfmda : TermFieldMatchDataArray).

(** The blueprints [createBlueprint] returns. *)
Inductive Blueprint : Type :=
| EmptyBlueprint (field : FieldSpec)
| MemTerm (b : MemTermBlueprint.t).

(** Modelled from the spec: [EmptyBlueprint] ([leaf_blueprints.h]) is the
    "empty/always-no-match blueprint (cost zero, no postings)". *)
Definition getEstimate (bp : Blueprint) : HitEstimate :=
  match bp with
  | EmptyBlueprint _ => mkHitEstimate 0 true
  | MemTerm b => MemTermBlueprint._estimate b
  end.

(** [MemTermBlueprint::createLeafSearch]. *)
Definition MemTerm_createLeafSearch (b : MemTermBlueprint.t)
    (tfmda : TermFieldMatchDataArray) : SearchIterator * list Event :=
  let search :=
    PostingIterator (MemTermBlueprint._pitr b) (MemTermBlueprint._featureStore b)
      (MemTermBlueprint._fieldId b) tfmda in
  if MemTermBlueprint._useBitVector b then
    (BooleanMatchIteratorWrapper search tfmda,
     [Log debug (ReturnBooleanMatchIteratorWrapper (MemTermBlueprint._fieldId b)
                   (pitr_size (MemTermBlueprint._pitr b)))])
  else
    (search,
     [Log debug (ReturnPostingIterator (MemTermBlueprint._fieldId b)
                   (pitr_size (MemTermBlueprint._pitr b)))]).

(** Executing a blueprint.  Modelled from the spec for [EmptyBlueprint],
    whose search matches nothing. *)
Definition createLeafSearch (bp : Blueprint) (tfmda : TermFieldMatchDataArray)
  : SearchIterator * list Event :=
  match bp with
  | EmptyBlueprint _ => (EmptySearch, [])
  | MemTerm b => MemTerm_createLeafSearch b tfmda
  end.

(** Modelled from the spec: the document ids a search iterator yields. *)
Fixpoint hits (it : SearchIterator) : list N :=
  match it with
  | EmptySearch => []
  | PostingIterator pitr _ _ _ => posting_docId <$> pitr
  | BooleanMatchIteratorWrapper search _ => hits search
  end.

Module CreateBlueprintVisitor.

(** The visitor's members and the [_result] slot of its
    [CreateBlueprintVisitorHelper] base, unset until [setResult]. *)
Record t : Type := mk {
  _field : FieldSpec;
  _fieldId : N;
  _fieldIndexes : FieldIndexCollection;
  _result : option Blueprint;
  _events : list Event
}.

Definition new (field : FieldSpec) (fieldId : N)
    (fieldIndexes : FieldIndexCollection) : t :=
  mk field fieldId fieldIndexes None [].

(** [visitTerm]: look the field index up, pin its generation, find the
    frozen posting list of the term and build the blueprint. *)
Definition visitTerm (n : Node) (v : t) : Outcome t :=
  let termStr := termAsString n in
  let ev0 := [Log debug (SearchingFor termStr (fs_getName (_field v)));
              GetFieldIndex (_fieldId v)] in
  match getFieldIndex (_fieldId v) (_fieldIndexes v) with
  | None => UndefinedBehaviour
  | Some fieldIndex =>
      let genGuard := FieldIndex.takeGenerationGuard fieldIndex in
      let pitr := FieldIndex.findFrozen termStr fieldIndex in
      let useBitVector := fs_isFilter (_field v) in
      Ok (mk (_field v) (_fieldId v) (_fieldIndexes v)
            (Some (MemTerm (MemTermBlueprint.new genGuard pitr
                              (FieldIndex.getFeatureStore fieldIndex)
                              (_field v) (_fieldId v) useBitVector)))
            (_events v ++ ev0 ++
             [TakeGenerationGuard (_fieldId v); FindFrozen (_fieldId v) termStr]))
  end.

(** Modelled from the spec: [handleNumberTermAsText]
    ([create_blueprint_visitor_helper.h]) re-expresses "the numeric value
    as its text representation", then takes "the text-matching path". *)
Definition handleNumberTermAsText (n : Node) (v : t) : Outcome t :=
  visitTerm (StringTerm (termAsString n)) v.

(** [term.accept(visitor)]: dispatch on the concrete kind of the node. *)
Definition accept (n : Node) (v : t) : Outcome t :=
  match n with
  | LocationTerm _ => visitTerm n v
  | PrefixTerm _ => visitTerm n v
  | RangeTerm _ => visitTerm n v
  | StringTerm _ => visitTerm n v
  | SubstringTerm _ => visitTerm n v
  | SuffixTerm _ => visitTerm n v
  | RegExpTerm _ => visitTerm n v
  | PredicateQuery => Ok v
  | NumberTerm _ => handleNumberTermAsText n v
  end.

(** Modelled from the spec: [getResult] hands out what [setResult] stored;
    a predicate query "yields no blueprint contribution". *)
Definition getResult (v : t) : option Blueprint := _result v.

End CreateBlueprintVisitor.

Definition IRequestContext : Type := N.

(** [MemoryIndex::createBlueprint], with [fieldIndexes] the state of
    [*_fieldIndexes] at the time of the call.  The result is the blueprint
    (if any) and the calls made on the field index collection. *)
Definition createBlueprint (requestContext : IRequestContext) (field : FieldSpec)
    (term : Node) (fieldIndexes : FieldIndexCollection) (s : MemoryIndex)
  : Outcome (option Blueprint * list Event) :=
  let fieldId := Schema.getIndexFieldId (fs_getName field) (_schema s) in
  if fieldId =? Schema.UNKNOWN_FIELD_ID then
    Ok (Some (EmptyBlueprint field), [])
  else
    match _hiddenFields s !! N.to_nat fieldId with
    | None => UndefinedBehaviour
    | Some true => Ok (Some (EmptyBlueprint field), [])
    | Some false =>
        let visitor := CreateBlueprintVisitor.new field fieldId fieldIndexes in
        bind (CreateBlueprintVisitor.accept term visitor)
             (fun v => Ok (CreateBlueprintVisitor.getResult v,
                           CreateBlueprintVisitor._events v))
    end.

(** ** Sequences of public operations *)

Inductive Op : Type :=
| OpInsert (docId : N) (doc : Document)
| OpRemove (docId : N)
| OpCommit (onWriteDone : DoneToken)
| OpFreeze
| OpPrune (schema : Schema.t).

Definition step (op : Op) (s : MemoryIndex) : Outcome Effect :=
  match op with
  | OpInsert docId doc => Ok (insertDocument docId doc s)
  | OpRemove docId => Ok (removeDocument docId s)
  | OpCommit onWriteDone => Ok (commit onWriteDone s)
  | OpFreeze => Ok (freeze s, [])
  | OpPrune schema => bind (pruneRemovedFields schema s) (fun s' => Ok (s', []))
  end.

(** Run the operations in order, collecting the events. *)
Fixpoint run (ops : list Op) (s : MemoryIndex) : Outcome Effect :=
  match ops with
  | [] => Ok (s, [])
  | op :: ops' =>
      bind (step op s) (fun '(s1, ev1) =>
      bind (run ops' s1) (fun '(s2, ev2) => Ok (s2, ev1 ++ ev2)))
  end.



(** ** Predicates used in the statements *)

(** The two owned inverters are distinct objects and the raw pointer
    designates one of them. *)
Definition wf_inverters (s : MemoryIndex) : Prop :=
  _inverter0 s <> _inverter1 s
  /\ (_inverter s = _inverter0 s \/ _inverter s = _inverter1 s).

(** The inverter that is not active. *)
Definition standbyInverter (s : MemoryIndex) : InverterPtr :=
  if _inverter s =? _inverter0 s then _inverter1 s else _inverter0 s.



(** Field [fieldId] of [schema] has a counterpart in [prunedSchema]: the
    test [wi.isValid()] of the pruning loop. *)
Definition hasCounterpart (prunedSchema schema : Schema.t) (fieldId : nat) : bool :=
  IndexIterator.isValid
    (IndexIterator.counterpart prunedSchema
       (IndexIterator.mk schema (N.of_nat fieldId))).

(** The hidden-field vector computed from [prunedSchema] for the fields of
    [schema]. *)
Definition hiddenFieldsFor (prunedSchema schema : Schema.t) : list bool :=
  (fun fieldId => negb (hasCounterpart prunedSchema schema fieldId))
    <$> seq 0 (length (Schema._indexFields schema)).

(** Sample data for the concrete instances. *)
Definition sample_doc : Document := mkDocument "id:test:doc::1" "red car".

Definition sample_schema : Schema.t :=
  Schema.mk [Schema.mkIndexField "title" 0 0; Schema.mkIndexField "body" 0 1].

(** The iterator is the bitvector-oriented wrapper. *)
Definition isBooleanMatchIteratorWrapper (it : SearchIterator) : bool :=
  match it with
  | BooleanMatchIteratorWrapper _ _ => true
  | _ => false
  end.

(** A field index collection and a query field for the concrete instances:
    field 0 ("title") holds postings for "car" in documents 1 and 2. *)
Definition sample_fieldIndexes : FieldIndexCollection :=
  [FieldIndex.mk {["car" := [mkPosting 1 10; mkPosting 2 11]]} 100 3;
   FieldIndex.mk ∅ 101 3].

Definition title_field : FieldSpec := mkFieldSpec "title" 0 0 false.
Definition title_filter_field : FieldSpec := mkFieldSpec "title" 0 0 true.
Definition color_field : FieldSpec := mkFieldSpec "color" 7 0 false.

(** ** Reading traces and operation sequences *)

(** The double-buffer discipline on a trace.  With [active] the inverter
    that accepts documents, every [invertDocument] and [removeDocument]
    call goes to [active]; a [pushDocuments] call takes from [active] and
    makes [standby] the accepting one. *)
Fixpoint follows_double_buffer (active standby : InverterPtr)
    (evs : list Event) : Prop :=
  match evs with
  | [] => True
  | InvertDocument p _ _ :: evs' =>
      p = active /\ follows_double_buffer active standby evs'
  | RemoveDocument p _ :: evs' =>
      p = active /\ follows_double_buffer active standby evs'
  | PushDocuments p _ _ :: evs' =>
      p = active /\ follows_double_buffer standby active evs'
  | _ :: evs' => follows_double_buffer active standby evs'
  end.

(** Every [pushDocuments] call in the trace comes right after the drain of
    the invert executor and the drain of the push executor, in this order,
    and targets the collection [fieldIndexes]. *)
Fixpoint pushes_follow_drains (fieldIndexes : FieldIndexesPtr)
    (evs : list Event) : Prop :=
  match evs with
  | [] => True
  | InvertThreadsSync :: PushThreadsSync :: PushDocuments _ target _ :: evs' =>
      target = fieldIndexes /\ pushes_follow_drains fieldIndexes evs'
  | PushDocuments _ _ _ :: _ => False
  | _ :: evs' => pushes_follow_drains fieldIndexes evs'
  end.

Definition is_push (e : Event) : bool :=
  match e with PushDocuments _ _ _ => true | _ => false end.

Definition is_commit (op : Op) : bool :=
  match op with OpCommit _ => true | _ => false end.

(** The event changes what an inverter has staged. *)
Definition stages (e : Event) : bool :=
  match e with
  | InvertDocument _ _ _ | RemoveDocument _ _ => true
  | _ => false
  end.

(** Whether [d] is indexed after [ops], told from the operations that name
    [d] and from [freeze] alone: [frozen] and [indexed] say how things stand
    before [ops]. *)
Fixpoint indexed_after (d : N) (ops : list Op) (frozen indexed : bool) : bool :=
  match ops with
  | [] => indexed
  | OpInsert d' _ :: ops' =>
      indexed_after d ops' frozen
        (if frozen then indexed else if d' =? d then true else indexed)
  | OpRemove d' :: ops' =>
      indexed_after d ops' frozen
        (if frozen then indexed else if d' =? d then false else indexed)
  | OpFreeze :: ops' => indexed_after d ops' true indexed
  | _ :: ops' => indexed_after d ops' frozen indexed
  end.

(** The schemas handed to [pruneRemovedFields], in call order. *)
Fixpoint pruned_with (ops : list Op) : list Schema.t :=
  match ops with
  | [] => []
  | OpPrune schema :: ops' => schema :: pruned_with ops'
  | _ :: ops' => pruned_with ops'
  end.

(** The hidden-field vector is the one computed from the schema in force
    for the fields of the original schema. *)
Definition pruning_inv (s : MemoryIndex) : Prop :=
  _hiddenFields s = hiddenFieldsFor (effectiveSchema s) (_schema s).

(** No field of [schema] is called [name]. *)
Definition lacks_name (name : string) (schema : Schema.t) : Prop :=
  forall g, g ∈ Schema._indexFields schema -> Schema.getName g <> name.




(** * Properties *)

Lemma elem_of_insert_self (d : N) (X : gset N) : d ∈ {[d]} ∪ X.
Proof. apply elem_of_union_l. by apply elem_of_singleton. Qed.

Lemma not_elem_of_remove_self (d : N) (X : gset N) : d ∉ X ∖ {[d]}.
Proof. apply not_elem_of_difference. right. by apply elem_of_singleton. Qed.

Lemma insert_present (d : N) (X : gset N) : d ∈ X -> {[d]} ∪ X = X.
Proof. intros H. apply subseteq_union_1_L. by apply singleton_subseteq_l. Qed.

Lemma UINT32_MOD_value : UINT32_MOD = 4294967296.
Proof. reflexivity. Qed.

Lemma wrap32_small n : n < UINT32_MOD -> wrap32 n = n.
Proof. intros H. unfold wrap32. by apply N.mod_small. Qed.

Lemma wrap32_lt n : wrap32 n < UINT32_MOD.
Proof. unfold wrap32. apply N.mod_lt. by rewrite UINT32_MOD_value. Qed.

(** [++] on a [uint32_t] never leaves the value where it was. *)
Lemma wrap32_succ_neq n : wrap32 (n + 1) <> n.
Proof.
  intros E. pose proof (wrap32_lt (n + 1)) as Hlt. rewrite E in Hlt.
  destruct (decide (n + 1 < UINT32_MOD)) as [Hs|Hs].
  - rewrite wrap32_small in E by done. lia.
  - assert (n + 1 = UINT32_MOD) as En by lia.
    unfold wrap32 in E. rewrite En, N.Div0.mod_same in E.
    rewrite UINT32_MOD_value in En. lia.
Qed.

(** [--] undoes [++] on a [uint32_t]. *)
Lemma wrap32_pred_succ n :
  n < UINT32_MOD -> wrap32 (wrap32 (n + 1) + (UINT32_MOD - 1)) = n.
Proof.
  intros Hn. unfold wrap32.
  rewrite N.Div0.add_mod_idemp_l.
  replace (n + 1 + (UINT32_MOD - 1)) with (n + 1 * UINT32_MOD)
    by (rewrite UINT32_MOD_value; lia).
  rewrite N.Div0.mod_add. by apply N.mod_small.
Qed.

Lemma wrap32_pred n :
  0 < n < UINT32_MOD -> wrap32 (n + (UINT32_MOD - 1)) = n - 1.
Proof.
  intros Hn. unfold wrap32.
  replace (n + (UINT32_MOD - 1)) with (n - 1 + 1 * UINT32_MOD)
    by (rewrite UINT32_MOD_value in *; lia).
  rewrite N.Div0.mod_add. apply N.mod_small. lia.
Qed.

(** [--] on a [uint32_t] never leaves the value where it was. *)
Lemma wrap32_pred_neq n : wrap32 (n + (UINT32_MOD - 1)) <> n.
Proof.
  intros E. pose proof (wrap32_lt (n + (UINT32_MOD - 1))) as Hlt.
  rewrite E in Hlt. destruct (decide (n = 0)) as [->|Hn].
  - rewrite wrap32_small in E by (rewrite UINT32_MOD_value; lia).
    rewrite UINT32_MOD_value in E. lia.
  - rewrite wrap32_pred in E by lia. lia.
Qed.

(** ** TransientMemoryUsageProvider *)

(** C10: a freshly constructed provider reports 0; after
    [set_transient_memory_usage x] the getter returns [x], the value stored
    last, whatever was stored before. *)
Theorem transient_memory_usage_get_after_set :
  TransientMemoryUsageProvider.get_transient_memory_usage
    TransientMemoryUsageProvider.new = 0
  /\ (forall p x,
        TransientMemoryUsageProvider.get_transient_memory_usage
          (TransientMemoryUsageProvider.set_transient_memory_usage x p) = x)
  /\ (forall p xs x,
        TransientMemoryUsageProvider.get_transient_memory_usage
          (TransientMemoryUsageProvider.set_all (xs ++ [x]) p) = x).
Proof.
  split; [reflexivity|]. split; [reflexivity|].
  intros p xs x. unfold TransientMemoryUsageProvider.set_all.
  by rewrite fold_left_app.
Qed.

(** ** The active inverter *)

Lemma MemoryIndex_new_wf schema p0 p1 pf :
  p0 <> p1 -> wf_inverters (MemoryIndex_new schema p0 p1 pf).
Proof. intros Hne. split; [exact Hne | by left]. Qed.

Lemma flipInverter_inverter s :
  _inverter (flipInverter s) = standbyInverter s.
Proof.
  unfold flipInverter, standbyInverter. simpl.
  by destruct (_inverter s =? _inverter0 s).
Qed.

Lemma flipInverter_wf s : wf_inverters s -> wf_inverters (flipInverter s).
Proof.
  intros [Hne Hact]. unfold wf_inverters.
  rewrite flipInverter_inverter. unfold standbyInverter. simpl.
  split; [exact Hne|].
  destruct (_inverter s =? _inverter0 s); [by right | by left].
Qed.

Lemma flipInverter_involutive s :
  wf_inverters s -> _inverter (flipInverter (flipInverter s)) = _inverter s.
Proof.
  intros [Hne Hact]. rewrite !flipInverter_inverter.
  unfold standbyInverter, flipInverter. simpl.
  destruct (N.eqb_spec (_inverter s) (_inverter0 s)) as [E|E]; simpl.
  - destruct (N.eqb_spec (_inverter1 s) (_inverter0 s)); congruence.
  - rewrite N.eqb_refl. destruct Hact; congruence.
Qed.

(** C1: [commit] emits, in this order, the drain of the invert executor, the
    drain of the push executor and [pushDocuments] on the inverter that was
    active at the call with the caller's token, and leaves the index with
    the inverter flipped and nothing else changed; the new active inverter
    is the other of the two instances, and a second commit makes the first
    one active again. *)
Theorem commit_pushes_then_flips (onWriteDone : DoneToken) (s : MemoryIndex) :
  wf_inverters s ->
  (commit onWriteDone s).2 =
    [InvertThreadsSync; PushThreadsSync; PushDocuments (_inverter s) (_fieldIndexes s) onWriteDone]
  /\ (commit onWriteDone s).1 = set_inverter (standbyInverter s) s
  /\ wf_inverters (commit onWriteDone s).1
  /\ _inverter (commit onWriteDone s).1 <> _inverter s
  /\ forall onWriteDone',
       _inverter (commit onWriteDone' (commit onWriteDone s).1).1 = _inverter s.
Proof.
  intros Hwf. unfold commit. cbn [fst snd].
  split; [reflexivity|]. split.
  { unfold flipInverter, standbyInverter.
    by destruct (_inverter s =? _inverter0 s). }
  split; [by apply flipInverter_wf|]. split.
  - rewrite flipInverter_inverter. unfold standbyInverter.
    destruct Hwf as [Hne Hact].
    destruct (N.eqb_spec (_inverter s) (_inverter0 s)); destruct Hact; congruence.
  - intros _. by apply flipInverter_involutive.
Qed.

Lemma commit_pushes_then_flips_witness :
  wf_inverters (MemoryIndex_new (Schema.mk []) 1 2 3)
  /\ (commit 7 (MemoryIndex_new (Schema.mk []) 1 2 3)).2 =
       [InvertThreadsSync; PushThreadsSync; PushDocuments 1 3 7]
  /\ _inverter (commit 7 (MemoryIndex_new (Schema.mk []) 1 2 3)).1 = 2
  /\ _inverter (commit 8 (commit 7 (MemoryIndex_new (Schema.mk []) 1 2 3)).1).1 = 1.
Proof.
  assert (wf_inverters (MemoryIndex_new (Schema.mk []) 1 2 3)) as Hwf
    by (apply MemoryIndex_new_wf; lia).
  destruct (commit_pushes_then_flips 7 _ Hwf) as (Hev & Hst & _ & _ & Htwice).
  split; [exact Hwf|]. split; [exact Hev|].
  split; [by rewrite Hst | exact (Htwice 8)].
Defined.

(** ** Freezing *)

Lemma updateMaxDocId_frame docId s :
  let s' := updateMaxDocId docId s in
  _schema s' = _schema s /\ _inverter0 s' = _inverter0 s
  /\ _inverter1 s' = _inverter1 s /\ _inverter s' = _inverter s
  /\ _frozen s' = _frozen s /\ _numDocs s' = _numDocs s
  /\ _hiddenFields s' = _hiddenFields s /\ _prunedSchema s' = _prunedSchema s
  /\ _indexedDocs s' = _indexedDocs s.
Proof. unfold updateMaxDocId. by destruct (_maxDocId s <? docId). Qed.

Lemma insertDocument_frozen_flag docId doc s :
  _frozen (insertDocument docId doc s).1 = _frozen s.
Proof.
  unfold insertDocument. destruct (_frozen s) eqn:Hf; [exact Hf|].
  destruct (updateMaxDocId_frame docId s) as (_ & _ & _ & _ & Hfr & _).
  case_bool_decide; simpl; congruence.
Qed.

Lemma insertDocument_frame docId doc s :
  _schema (insertDocument docId doc s).1 = _schema s
  /\ _hiddenFields (insertDocument docId doc s).1 = _hiddenFields s
  /\ _prunedSchema (insertDocument docId doc s).1 = _prunedSchema s
  /\ _inverter (insertDocument docId doc s).1 = _inverter s
  /\ _inverter0 (insertDocument docId doc s).1 = _inverter0 s
  /\ _inverter1 (insertDocument docId doc s).1 = _inverter1 s.
Proof.
  unfold insertDocument, updateMaxDocId. destruct (_frozen s); [done|].
  destruct (_maxDocId s <? docId); by destruct (bool_decide _).
Qed.

Lemma removeDocument_frozen_flag docId s :
  _frozen (removeDocument docId s).1 = _frozen s.
Proof.
  unfold removeDocument. destruct (_frozen s) eqn:Hf; [exact Hf|].
  by case_bool_decide.
Qed.

Lemma pruneRemovedFields_frozen_flag schema s s' :
  pruneRemovedFields schema s = Ok s' -> _frozen s' = _frozen s.
Proof.
  unfold pruneRemovedFields.
  destruct (match _prunedSchema s with Some _ => _ | None => _ end) as [newSchema|].
  - destruct (pruneLoop _ _ _ _); simpl; intros [= <-]; reflexivity.
  - by intros [= <-].
Qed.

(** Nothing resets the frozen flag. *)
Lemma step_keeps_frozen op s s' ev :
  _frozen s = true -> step op s = Ok (s', ev) -> _frozen s' = true.
Proof.
  intros Hf. destruct op as [docId doc|docId|tok| |schema]; simpl.
  - intros [= E]. pose proof (insertDocument_frozen_flag docId doc s) as H.
    rewrite E in H. simpl in H. congruence.
  - intros [= E]. pose proof (removeDocument_frozen_flag docId s) as H.
    rewrite E in H. simpl in H. congruence.
  - by intros [= <- _].
  - by intros [= <- _].
  - destruct (pruneRemovedFields schema s) as [s1| | |] eqn:Hp; simpl; try done.
    intros [= <- _]. by rewrite (pruneRemovedFields_frozen_flag _ _ _ Hp).
Qed.

Lemma run_keeps_frozen ops s s' ev :
  _frozen s = true -> run ops s = Ok (s', ev) -> _frozen s' = true.
Proof.
  revert s ev. induction ops as [|op ops IH]; intros s ev Hf; simpl.
  - by intros [= <- _].
  - destruct (step op s) as [[s1 ev1]| | |] eqn:Hs; simpl; try done.
    destruct (run ops s1) as [[s2 ev2]| | |] eqn:Hr; simpl; try done.
    intros [= <- _]. eapply IH; [|exact Hr]. by eapply step_keeps_frozen.
Qed.

(** C2: in any state reached after [freeze], by whatever operations,
    [insertDocument] and [removeDocument] return the state they were given
    (so the indexed-document set, the live count, the max doc id and every
    other member are unchanged) and emit a single warning log line: no
    inverter or field-index call is made, and no failure is reported. *)
Theorem frozen_insert_remove_noop (s0 s : MemoryIndex) (ops : list Op)
    (ev : list Event) (docId : N) (doc : Document) :
  run ops (freeze s0) = Ok (s, ev) ->
  insertDocument docId doc s =
    (s, [Log warning (IgnoringInsert (doc_getId doc) docId (doc_toString doc))])
  /\ removeDocument docId s = (s, [Log warning (IgnoringRemove docId)]).
Proof.
  intros Hrun.
  assert (_frozen s = true) as Hf by (by eapply run_keeps_frozen; [|exact Hrun]).
  unfold insertDocument, removeDocument. rewrite Hf. by split.
Qed.

Lemma frozen_insert_remove_noop_witness :
  let s := (commit 9 (freeze (insertDocument 1 sample_doc
                                (MemoryIndex_new sample_schema 1 2 3)).1)).1 in
  insertDocument 2 sample_doc s =
    (s, [Log warning (IgnoringInsert "id:test:doc::1" 2 "red car")])
  /\ removeDocument 1 s = (s, [Log warning (IgnoringRemove 1)]).
Proof.
  pose proof (frozen_insert_remove_noop
                (insertDocument 1 sample_doc (MemoryIndex_new sample_schema 1 2 3)).1
                (commit 9 (freeze (insertDocument 1 sample_doc
                                     (MemoryIndex_new sample_schema 1 2 3)).1)).1
                [OpCommit 9]
                [InvertThreadsSync; PushThreadsSync; PushDocuments 1 3 9]
                2 sample_doc eq_refl) as (Hi & _).
  pose proof (frozen_insert_remove_noop
                (insertDocument 1 sample_doc (MemoryIndex_new sample_schema 1 2 3)).1
                (commit 9 (freeze (insertDocument 1 sample_doc
                                     (MemoryIndex_new sample_schema 1 2 3)).1)).1
                [OpCommit 9]
                [InvertThreadsSync; PushThreadsSync; PushDocuments 1 3 9]
                1 sample_doc eq_refl) as (_ & Hr).
  split; [exact Hi | exact Hr].
Defined.

(** ** Insertion and removal on an unfrozen index *)

Lemma insertDocument_unfrozen docId doc s :
  _frozen s = false ->
  _indexedDocs (insertDocument docId doc s).1 = {[docId]} ∪ _indexedDocs s
  /\ _numDocs (insertDocument docId doc s).1 =
       (if bool_decide (docId ∈ _indexedDocs s) then _numDocs s
        else wrap32 (_numDocs s + 1))
  /\ (insertDocument docId doc s).2 = [InvertDocument (_inverter s) docId doc].
Proof.
  intros Hf. unfold insertDocument. rewrite Hf.
  destruct (updateMaxDocId_frame docId s)
    as (_ & _ & _ & Hinv & _ & Hnum & _ & _ & Hdocs).
  cbv zeta in Hinv, Hnum, Hdocs. rewrite Hinv, Hdocs.
  destruct (decide (docId ∈ _indexedDocs s)) as [Hin|Hnin].
  - rewrite (bool_decide_eq_false_2 (docId ∉ _ )) by (intros H; by apply H).
    rewrite bool_decide_eq_true_2 by done. simpl. by rewrite Hnum.
  - rewrite (bool_decide_eq_true_2 (docId ∉ _)) by done.
    rewrite bool_decide_eq_false_2 by done. simpl. by rewrite Hnum.
Qed.

(** C3: on an unfrozen index [insertDocument d doc] marks [d] as indexed and
    steps the live document count exactly when [d] was not marked before
    (by one, with [uint32_t] arithmetic); inserting the same id a second
    time leaves the count where the first insertion put it. *)
Theorem insertDocument_counts_new_ids_once (d : N) (doc doc' : Document)
    (s : MemoryIndex) :
  _frozen s = false ->
  let s1 := (insertDocument d doc s).1 in
  let s2 := (insertDocument d doc' s1).1 in
  d ∈ _indexedDocs s1
  /\ (d ∉ _indexedDocs s -> _numDocs s1 = wrap32 (_numDocs s + 1))
  /\ (d ∉ _indexedDocs s -> _numDocs s + 1 < UINT32_MOD ->
      _numDocs s1 = _numDocs s + 1)
  /\ (d ∈ _indexedDocs s -> _numDocs s1 = _numDocs s)
  /\ (_numDocs s1 <> _numDocs s <-> d ∉ _indexedDocs s)
  /\ _numDocs s2 = _numDocs s1
  /\ _indexedDocs s2 = _indexedDocs s1.
Proof.
  intros Hf s1 s2.
  destruct (insertDocument_unfrozen d doc s Hf) as (Hdocs & Hnum & _).
  fold s1 in Hdocs, Hnum.
  assert (d ∈ _indexedDocs s1) as Hin1 by (rewrite Hdocs; apply elem_of_insert_self).
  assert (_frozen s1 = false) as Hf1
    by (unfold s1; by rewrite insertDocument_frozen_flag).
  destruct (insertDocument_unfrozen d doc' s1 Hf1) as (Hdocs2 & Hnum2 & _).
  fold s2 in Hdocs2, Hnum2.
  rewrite bool_decide_eq_true_2 in Hnum2 by done.
  split; [exact Hin1|].
  split; [intros Hnin; by rewrite bool_decide_eq_false_2 in Hnum|].
  split.
  { intros Hnin Hsmall. rewrite bool_decide_eq_false_2 in Hnum by done.
    by rewrite Hnum, wrap32_small. }
  split; [intros Hin; by rewrite bool_decide_eq_true_2 in Hnum|].
  split.
  { case_bool_decide as Hd.
    - split; [congruence | intros Hnin; by destruct Hnin].
    - split; [done | intros _; rewrite Hnum; apply wrap32_succ_neq]. }
  split; [exact Hnum2|]. rewrite Hdocs2. by apply insert_present.
Qed.

Lemma insertDocument_counts_new_ids_once_witness :
  _numDocs (insertDocument 5 sample_doc (MemoryIndex_new sample_schema 1 2 3)).1 = 1
  /\ _numDocs (insertDocument 5 sample_doc
                 (insertDocument 5 sample_doc
                    (MemoryIndex_new sample_schema 1 2 3)).1).1 = 1.
Proof.
  destruct (insertDocument_counts_new_ids_once 5 sample_doc sample_doc
              (MemoryIndex_new sample_schema 1 2 3) eq_refl)
    as (_ & _ & Hfresh & _ & _ & Htwice & _).
  assert (_numDocs (insertDocument 5 sample_doc
                      (MemoryIndex_new sample_schema 1 2 3)).1 = 1) as H1.
  { apply Hfresh; [apply not_elem_of_empty | reflexivity]. }
  split; [exact H1|]. etrans; [exact Htwice | exact H1].
Defined.

Lemma removeDocument_unfrozen docId s :
  _frozen s = false ->
  (removeDocument docId s).2 = [RemoveDocument (_inverter s) docId]
  /\ (docId ∈ _indexedDocs s ->
      _indexedDocs (removeDocument docId s).1 = _indexedDocs s ∖ {[docId]}
      /\ _numDocs (removeDocument docId s).1 =
           wrap32 (_numDocs s + (UINT32_MOD - 1)))
  /\ (docId ∉ _indexedDocs s -> (removeDocument docId s).1 = s).
Proof.
  intros Hf. unfold removeDocument. rewrite Hf.
  case_bool_decide; simpl; split; try done; split; done.
Qed.

(** C4: on an unfrozen index [removeDocument d] unmarks [d] and steps the
    live document count down exactly when [d] was marked as indexed;
    removing an id that is not indexed changes nothing in the index, and
    after an insertion of a new id one removal brings the count back and a
    second removal leaves it there. *)
Theorem removeDocument_counts_indexed_ids_once (d : N) (doc : Document)
    (s : MemoryIndex) :
  _frozen s = false ->
  let s1 := (removeDocument d s).1 in
  (d ∉ _indexedDocs s1)
  /\ (d ∈ _indexedDocs s ->
      _numDocs s1 = wrap32 (_numDocs s + (UINT32_MOD - 1))
      /\ _indexedDocs s1 = _indexedDocs s ∖ {[d]})
  /\ (d ∈ _indexedDocs s -> 0 < _numDocs s < UINT32_MOD ->
      _numDocs s1 = _numDocs s - 1)
  /\ (d ∉ _indexedDocs s -> s1 = s)
  /\ (_numDocs s1 <> _numDocs s <-> d ∈ _indexedDocs s)
  /\ (removeDocument d s1).1 = s1
  /\ (d ∉ _indexedDocs s -> _numDocs s < UINT32_MOD ->
      let si := (insertDocument d doc s).1 in
      _numDocs si = wrap32 (_numDocs s + 1)
      /\ _numDocs (removeDocument d si).1 = _numDocs s
      /\ _numDocs (removeDocument d (removeDocument d si).1).1 = _numDocs s).
Proof.
  intros Hf s1.
  destruct (removeDocument_unfrozen d s Hf) as (_ & Hin & Hnin). fold s1 in Hin, Hnin.
  assert (d ∉ _indexedDocs s1) as Hgone.
  { destruct (decide (d ∈ _indexedDocs s)) as [H|H].
    - destruct (Hin H) as [-> _]. apply not_elem_of_remove_self.
    - by rewrite (Hnin H). }
  assert (_frozen s1 = false) as Hf1
    by (unfold s1; by rewrite removeDocument_frozen_flag).
  split; [exact Hgone|].
  split; [intros H; destruct (Hin H); by split|].
  split.
  { intros H Hpos. destruct (Hin H) as [_ ->]. by apply wrap32_pred. }
  split; [exact Hnin|].
  split.
  { destruct (decide (d ∈ _indexedDocs s)) as [H|H].
    - split; [done|]. intros _. destruct (Hin H) as [_ ->].
      apply wrap32_pred_neq.
    - rewrite (Hnin H). split; [congruence | done]. }
  split.
  { destruct (removeDocument_unfrozen d s1 Hf1) as (_ & _ & H). by apply H. }
  intros Hd Hsmall si.
  destruct (insertDocument_unfrozen d doc s Hf) as (Hdocs & Hnum & _).
  fold si in Hdocs, Hnum. rewrite bool_decide_eq_false_2 in Hnum by done.
  assert (_frozen si = false) as Hfi
    by (unfold si; by rewrite insertDocument_frozen_flag).
  assert (d ∈ _indexedDocs si) as Hini by (rewrite Hdocs; apply elem_of_insert_self).
  destruct (removeDocument_unfrozen d si Hfi) as (_ & Hr & _).
  destruct (Hr Hini) as [Hrd Hrn].
  assert (_numDocs (removeDocument d si).1 = _numDocs s) as Hback
    by (by rewrite Hrn, Hnum, wrap32_pred_succ).
  split; [exact Hnum|]. split; [exact Hback|].
  assert (_frozen (removeDocument d si).1 = false) as Hfr
    by (by rewrite removeDocument_frozen_flag).
  destruct (removeDocument_unfrozen d _ Hfr) as (_ & _ & Hno).
  rewrite Hno; [exact Hback|]. rewrite Hrd. apply not_elem_of_remove_self.
Qed.

Lemma removeDocument_counts_indexed_ids_once_witness :
  _numDocs (removeDocument 5 (insertDocument 5 sample_doc
                                (MemoryIndex_new sample_schema 1 2 3)).1).1 = 0
  /\ (removeDocument 7 (MemoryIndex_new sample_schema 1 2 3)).1 =
       MemoryIndex_new sample_schema 1 2 3.
Proof.
  destruct (removeDocument_counts_indexed_ids_once 5 sample_doc
              (MemoryIndex_new sample_schema 1 2 3) eq_refl)
    as (_ & _ & _ & _ & _ & _ & Hcycle).
  destruct (removeDocument_counts_indexed_ids_once 7 sample_doc
              (MemoryIndex_new sample_schema 1 2 3) eq_refl)
    as (_ & _ & _ & Hnoop & _).
  split.
  - apply Hcycle; [apply not_elem_of_empty | reflexivity].
  - apply Hnoop. apply not_elem_of_empty.
Defined.

(** ** The pruning loop *)

Lemma isValid_at schema (i : nat) :
  IndexIterator.isValid (IndexIterator.mk schema (N.of_nat i)) =
  bool_decide ((i < length (Schema._indexFields schema))%nat).
Proof.
  unfold IndexIterator.isValid, Schema.getNumIndexFields. simpl.
  case_bool_decide; [apply N.ltb_lt | apply N.ltb_ge]; lia.
Qed.

(** Started at field [i] with enough iterations left, the loop ends
    normally, having kept the entries below [i] and recomputed the rest. *)
Lemma pruneLoop_from prunedSchema schema :
  forall (fuel i : nat) (hidden : list bool),
    length hidden = length (Schema._indexFields schema) ->
    (length (Schema._indexFields schema) <= fuel + i)%nat ->
    pruneLoop fuel prunedSchema (IndexIterator.mk schema (N.of_nat i)) hidden =
    Ok (take i hidden ++
        ((fun fieldId => negb (hasCounterpart prunedSchema schema fieldId))
           <$> seq i (length (Schema._indexFields schema) - i))).
Proof.
  set (n := length (Schema._indexFields schema)).
  induction fuel as [|fuel IH]; intros i hidden Hlen Hfuel.
  - simpl. rewrite isValid_at. fold n.
    rewrite bool_decide_eq_false_2 by lia.
    replace (n - i)%nat with 0%nat by lia. simpl.
    rewrite take_ge by lia. by rewrite app_nil_r.
  - simpl. rewrite isValid_at. fold n. case_bool_decide as Hi.
    + unfold IndexIterator.getIndex, IndexIterator.next. simpl.
      assert ((N.of_nat i <? N.of_nat (length hidden)) = true) as ->
        by (apply N.ltb_lt; lia).
      rewrite <- Nat2N.inj_succ, Nat2N.id.
      rewrite IH by (rewrite ?length_insert; lia).
      f_equal.
      rewrite (take_S_r _ _ (negb (hasCounterpart prunedSchema schema i)))
        by (apply list_lookup_insert_eq; lia).
      rewrite take_insert_ge by lia.
      replace (n - i)%nat with (S (n - S i)) by lia.
      simpl. by rewrite <- app_assoc.
    + replace (n - i)%nat with 0%nat by lia. simpl.
      rewrite take_ge by lia. by rewrite app_nil_r.
Qed.

(** The whole loop of [pruneRemovedFields] never fails on a vector of the
    right size and recomputes every entry. *)
Lemma pruneLoop_total prunedSchema schema hidden :
  length hidden = length (Schema._indexFields schema) ->
  pruneLoop (length (Schema._indexFields schema)) prunedSchema
    (IndexIterator.begin schema) hidden =
  Ok (hiddenFieldsFor prunedSchema schema).
Proof.
  intros Hlen.
  pose proof (pruneLoop_from prunedSchema schema
                (length (Schema._indexFields schema)) 0 hidden Hlen) as H.
  simpl in H. rewrite Nat.sub_0_r in H. apply H. lia.
Qed.

Lemma length_hiddenFieldsFor prunedSchema schema :
  length (hiddenFieldsFor prunedSchema schema) =
  length (Schema._indexFields schema).
Proof. unfold hiddenFieldsFor. by rewrite length_fmap, length_seq. Qed.

(** What [pruneRemovedFields] does, by cases on whether the intersection
    differs from the schema in force. *)
Lemma pruneRemovedFields_cases schema s :
  length (_hiddenFields s) = length (Schema._indexFields (_schema s)) ->
  pruneRemovedFields schema s =
    if decide (effectiveSchema s = Schema.intersect (effectiveSchema s) schema)
    then Ok s
    else Ok (set_pruning (Some (Schema.intersect (effectiveSchema s) schema))
               (hiddenFieldsFor (Schema.intersect (effectiveSchema s) schema)
                  (_schema s)) s).
Proof.
  intros Hlen. unfold pruneRemovedFields, effectiveSchema, Schema.eqb.
  destruct (_prunedSchema s) as [pruned|]; case_bool_decide as He.
  - by rewrite decide_True.
  - rewrite decide_False by done. by rewrite pruneLoop_total.
  - by rewrite decide_True.
  - rewrite decide_False by done. by rewrite pruneLoop_total.
Qed.

(** ** Field lookup by name *)

Lemma find_from_bounds name fs : forall k j,
  Schema.find_from name fs k = Some j ->
  k <= j < k + N.of_nat (length fs)
  /\ exists g, fs !! N.to_nat (j - k) = Some g /\ Schema.getName g = name.
Proof.
  induction fs as [|f fs IH]; intros k j; simpl; [done|].
  case_bool_decide as Hn.
  - intros [= <-]. split; [lia|]. exists f. by rewrite N.sub_diag.
  - intros H. destruct (IH _ _ H) as (Hb & g & Hg & Hname).
    split; [lia|]. exists g. split; [|done].
    replace (N.to_nat (j - k)) with (S (N.to_nat (j - N.succ k))) by lia.
    done.
Qed.

Lemma find_from_None name fs k :
  Schema.find_from name fs k = None <->
  forall g, g ∈ fs -> Schema.getName g <> name.
Proof.
  revert k. induction fs as [|f fs IH]; intros k; simpl.
  - split; [intros _ g Hg; by apply elem_of_nil in Hg | done].
  - case_bool_decide as Hn.
    + split; [done|]. intros H. exfalso. apply (H f); [left | done].
    + rewrite IH. split.
      * intros H g Hg. apply elem_of_cons in Hg as [->|Hg]; [done | by apply H].
      * intros H g Hg. apply H. by right.
Qed.

(** A field of the schema is found under its own name, at or before its
    own position. *)
Lemma find_from_present fs : forall (i : nat) f k,
  fs !! i = Some f ->
  exists j, Schema.find_from (Schema.getName f) fs k = Some j
            /\ j < k + N.of_nat (length fs).
Proof.
  intros i f k Hf.
  destruct (Schema.find_from (Schema.getName f) fs k) as [j|] eqn:E.
  - exists j. split; [done|]. by destruct (find_from_bounds _ _ _ _ E) as [[_ ?] _].
  - exfalso. rewrite find_from_None in E. apply (E f); [|done].
    by eapply list_elem_of_lookup_2.
Qed.

Lemma hasCounterpart_self schema (i : nat) :
  (i < length (Schema._indexFields schema))%nat ->
  hasCounterpart schema schema i = true.
Proof.
  intros Hi. destruct (lookup_lt_is_Some_2 _ _ Hi) as [f Hf].
  unfold hasCounterpart, IndexIterator.counterpart, IndexIterator.getName. simpl.
  rewrite Nat2N.id, Hf. simpl.
  unfold IndexIterator.isValid, Schema.getIndexFieldId, Schema.getNumIndexFields.
  simpl. destruct (find_from_present _ i f 0 Hf) as (j & -> & Hj).
  apply N.ltb_lt. lia.
Qed.

(** With fewer fields than the sentinel, "has a counterpart" means that the
    pruned schema holds a field of the same name. *)
Lemma hasCounterpart_by_name prunedSchema schema (i : nat) f :
  Schema.getNumIndexFields prunedSchema <= Schema.UNKNOWN_FIELD_ID ->
  Schema._indexFields schema !! i = Some f ->
  hasCounterpart prunedSchema schema i = true <->
  exists g, g ∈ Schema._indexFields prunedSchema
            /\ Schema.getName g = Schema.getName f.
Proof.
  intros Hsmall Hf.
  unfold hasCounterpart, IndexIterator.counterpart, IndexIterator.getName. simpl.
  rewrite Nat2N.id, Hf. simpl.
  unfold IndexIterator.isValid, Schema.getIndexFieldId. simpl.
  destruct (Schema.find_from _ _ 0) as [j|] eqn:E.
  - destruct (find_from_bounds _ _ _ _ E) as (Hb & g & Hg & Hname).
    split.
    + intros _. exists g. split; [by eapply list_elem_of_lookup_2 | done].
    + intros _. apply N.ltb_lt. unfold Schema.getNumIndexFields. lia.
  - rewrite find_from_None in E. split.
    + intros H. apply N.ltb_lt in H. lia.
    + intros (g & Hg & Hname). by destruct (E g Hg).
Qed.

Lemma hiddenFieldsFor_self schema :
  hiddenFieldsFor schema schema =
  replicate (length (Schema._indexFields schema)) false.
Proof.
  apply list_eq. intros i. unfold hiddenFieldsFor. rewrite list_lookup_fmap.
  destruct (decide (i < length (Schema._indexFields schema))%nat) as [Hi|Hi].
  - rewrite lookup_seq_lt, lookup_replicate_2 by done. simpl.
    by rewrite hasCounterpart_self.
  - rewrite lookup_seq_ge by lia. symmetry. apply lookup_replicate_None. lia.
Qed.

Lemma hiddenFieldsFor_lookup prunedSchema schema (fieldId : nat) :
  (fieldId < length (Schema._indexFields schema))%nat ->
  hiddenFieldsFor prunedSchema schema !! fieldId =
  Some (negb (hasCounterpart prunedSchema schema fieldId)).
Proof.
  intros Hi. unfold hiddenFieldsFor.
  by rewrite list_lookup_fmap, lookup_seq_lt.
Qed.

Lemma MemoryIndex_new_hidden schema p0 p1 pf :
  _hiddenFields (MemoryIndex_new schema p0 p1 pf) =
  replicate (length (Schema._indexFields schema)) false.
Proof. simpl. unfold Schema.getNumIndexFields. by rewrite Nat2N.id. Qed.

(** ** Schema pruning *)

(** A prune call whose intersection equals the schema in force returns the
    index as it was. *)
Lemma pruneRemovedFields_noop schema s :
  effectiveSchema s = Schema.intersect (effectiveSchema s) schema ->
  pruneRemovedFields schema s = Ok s.
Proof.
  unfold pruneRemovedFields, effectiveSchema, Schema.eqb.
  destruct (_prunedSchema s) as [pruned|]; intros He;
    by rewrite bool_decide_eq_true_2.
Qed.

(** C5, as stated, fails: pruning twice with the original schema itself
    leaves the pruned schema unset, not equal to the double intersection. *)
Lemma prune_noop_keeps_pruned_schema_unset :
  bind (pruneRemovedFields sample_schema (MemoryIndex_new sample_schema 1 2 3))
       (pruneRemovedFields sample_schema)
    = Ok (MemoryIndex_new sample_schema 1 2 3)
  /\ getPrunedSchema (MemoryIndex_new sample_schema 1 2 3) = None
  /\ getPrunedSchema (MemoryIndex_new sample_schema 1 2 3) <>
       Some (Schema.intersect (Schema.intersect sample_schema sample_schema)
               sample_schema).
Proof. split; [reflexivity|]. split; [reflexivity | discriminate]. Qed.

(** C5, amended: after [pruneRemovedFields S1] then [pruneRemovedFields S2]
    on an index built with schema [S0], both calls return normally, the
    schema in force (the pruned schema when one is set, the original schema
    otherwise) is [intersect (intersect S0 S1) S2], the pruned schema is
    either that intersection or unset (the latter only when the
    intersection is [S0] itself), the hidden-field vector marks a field id
    of [S0] exactly when it has no counterpart in that intersection, and a
    call whose intersection equals the schema in force changes nothing. *)
Theorem prune_twice_effective_schema (S0 S1 S2 : Schema.t) (p0 p1 : InverterPtr)
    (pf : FieldIndexesPtr) :
  exists s1 s2,
    pruneRemovedFields S1 (MemoryIndex_new S0 p0 p1 pf) = Ok s1
    /\ pruneRemovedFields S2 s1 = Ok s2
    /\ effectiveSchema s2 = Schema.intersect (Schema.intersect S0 S1) S2
    /\ (getPrunedSchema s2 = Some (Schema.intersect (Schema.intersect S0 S1) S2)
        \/ (getPrunedSchema s2 = None
            /\ Schema.intersect (Schema.intersect S0 S1) S2 = S0))
    /\ _hiddenFields s2 =
         hiddenFieldsFor (Schema.intersect (Schema.intersect S0 S1) S2) S0
    /\ (forall fieldId : nat,
          (fieldId < length (Schema._indexFields S0))%nat ->
          _hiddenFields s2 !! fieldId =
          Some (negb (hasCounterpart
                        (Schema.intersect (Schema.intersect S0 S1) S2) S0 fieldId)))
    /\ (forall s schema,
          effectiveSchema s = Schema.intersect (effectiveSchema s) schema ->
          pruneRemovedFields schema s = Ok s).
Proof.
  set (s0 := MemoryIndex_new S0 p0 p1 pf).
  assert (length (_hiddenFields s0) = length (Schema._indexFields (_schema s0)))
    as Hlen0.
  { unfold s0. by rewrite MemoryIndex_new_hidden, length_replicate. }
  assert (exists s1 s2,
    pruneRemovedFields S1 s0 = Ok s1
    /\ pruneRemovedFields S2 s1 = Ok s2
    /\ effectiveSchema s2 = Schema.intersect (Schema.intersect S0 S1) S2
    /\ (getPrunedSchema s2 = Some (Schema.intersect (Schema.intersect S0 S1) S2)
        \/ (getPrunedSchema s2 = None
            /\ Schema.intersect (Schema.intersect S0 S1) S2 = S0))
    /\ _hiddenFields s2 =
         hiddenFieldsFor (Schema.intersect (Schema.intersect S0 S1) S2) S0)
    as (s1 & s2 & H1 & H2 & Heff & Hpr & Hhid).
  { rewrite (pruneRemovedFields_cases S1 s0 Hlen0).
    change (effectiveSchema s0) with S0.
    destruct (decide (S0 = Schema.intersect S0 S1)) as [E1|E1].
    - (* the first call changes nothing *)
      exists s0. rewrite (pruneRemovedFields_cases S2 s0 Hlen0).
      change (effectiveSchema s0) with S0. rewrite <- E1.
      destruct (decide (S0 = Schema.intersect S0 S2)) as [E2|E2].
      + exists s0. rewrite <- E2. repeat split; try done.
        * right. by split.
        * unfold s0. by rewrite MemoryIndex_new_hidden, hiddenFieldsFor_self.
      + eexists. repeat split; try done. by left.
    - (* the first call stores the intersection with S1 *)
      set (P := Schema.intersect S0 S1).
      set (s1 := set_pruning (Some P) (hiddenFieldsFor P (_schema s0)) s0).
      exists s1.
      assert (length (_hiddenFields s1) =
              length (Schema._indexFields (_schema s1))) as Hlen1
        by apply length_hiddenFieldsFor.
      rewrite (pruneRemovedFields_cases S2 s1 Hlen1).
      change (effectiveSchema s1) with P.
      destruct (decide (P = Schema.intersect P S2)) as [E2|E2].
      + exists s1. rewrite <- E2. repeat split; try done. by left.
      + eexists. repeat split; try done. by left. }
  exists s1, s2. repeat split; try done.
  - intros fieldId Hi. rewrite Hhid. by apply hiddenFieldsFor_lookup.
  - intros s schema. apply pruneRemovedFields_noop.
Qed.

Lemma prune_twice_effective_schema_witness :
  exists s2,
    bind (pruneRemovedFields (Schema.mk [Schema.mkIndexField "title" 0 0])
            (MemoryIndex_new sample_schema 1 2 3))
         (pruneRemovedFields sample_schema) = Ok s2
    /\ getPrunedSchema s2 = Some (Schema.mk [Schema.mkIndexField "title" 0 0])
    /\ _hiddenFields s2 = [false; true]
    /\ pruneRemovedFields sample_schema s2 = Ok s2.
Proof.
  destruct (prune_twice_effective_schema sample_schema
              (Schema.mk [Schema.mkIndexField "title" 0 0]) sample_schema 1 2 3)
    as (s1 & s2 & H1 & H2 & Heff & Hpr & Hhid & _ & Hnoop).
  exists s2. rewrite H1. simpl. split; [exact H2|].
  split.
  { destruct Hpr as [Hpr|[_ Hpr]]; [exact Hpr | discriminate Hpr]. }
  split; [exact Hhid|].
  apply Hnoop. by rewrite Heff.
Defined.

(** ** The live document count *)












(** *** The count modulo [2^32] *)







(** *** Where the count wraps *)





(** ** Blueprint construction *)

(** C6: when the field name does not resolve to a field id, or the resolved
    id is marked hidden, [createBlueprint] returns the empty blueprint for
    every term node, without any call on the field index collection (no
    field index lookup, no generation guard); that blueprint has estimate
    zero, flagged empty, and its search yields no document. *)
Theorem createBlueprint_unknown_or_hidden_is_empty
    (requestContext : IRequestContext) (field : FieldSpec) (term : Node)
    (fieldIndexes : FieldIndexCollection) (s : MemoryIndex) :
  Schema.getIndexFieldId (fs_getName field) (_schema s) = Schema.UNKNOWN_FIELD_ID
  \/ _hiddenFields s
       !! N.to_nat (Schema.getIndexFieldId (fs_getName field) (_schema s))
     = Some true ->
  createBlueprint requestContext field term fieldIndexes s =
    Ok (Some (EmptyBlueprint field), [])
  /\ getEstimate (EmptyBlueprint field) = mkHitEstimate 0 true
  /\ forall tfmda,
       createLeafSearch (EmptyBlueprint field) tfmda = (EmptySearch, [])
       /\ hits (createLeafSearch (EmptyBlueprint field) tfmda).1 = [].
Proof.
  intros H. split; [|by split]. unfold createBlueprint.
  destruct (N.eqb_spec (Schema.getIndexFieldId (fs_getName field) (_schema s))
              Schema.UNKNOWN_FIELD_ID) as [E|E]; [done|].
  destruct H as [H|H]; [done|]. by rewrite H.
Qed.

Lemma createBlueprint_unknown_or_hidden_is_empty_witness :
  createBlueprint 0 color_field (StringTerm "car") sample_fieldIndexes
    (MemoryIndex_new sample_schema 1 2 3) = Ok (Some (EmptyBlueprint color_field), [])
  /\ createBlueprint 0 title_field (StringTerm "car") sample_fieldIndexes
       (set_pruning (Some (Schema.mk [])) [true; true]
          (MemoryIndex_new sample_schema 1 2 3))
     = Ok (Some (EmptyBlueprint title_field), []).
Proof.
  split.
  - apply (createBlueprint_unknown_or_hidden_is_empty 0 color_field
             (StringTerm "car") sample_fieldIndexes
             (MemoryIndex_new sample_schema 1 2 3)).
    left. reflexivity.
  - apply (createBlueprint_unknown_or_hidden_is_empty 0 title_field
             (StringTerm "car") sample_fieldIndexes
             (set_pruning (Some (Schema.mk [])) [true; true]
                (MemoryIndex_new sample_schema 1 2 3))).
    right. reflexivity.
Defined.

(** What [createBlueprint] returns for a known, visible field whose field
    index exists, for every term kind but the predicate query. *)
Lemma createBlueprint_visible (requestContext : IRequestContext)
    (field : FieldSpec) (term : Node) (fieldIndexes : FieldIndexCollection)
    (s : MemoryIndex) (fieldIndex : FieldIndex.t) :
  let fieldId := Schema.getIndexFieldId (fs_getName field) (_schema s) in
  fieldId <> Schema.UNKNOWN_FIELD_ID ->
  _hiddenFields s !! N.to_nat fieldId = Some false ->
  getFieldIndex fieldId fieldIndexes = Some fieldIndex ->
  term <> PredicateQuery ->
  createBlueprint requestContext field term fieldIndexes s =
    Ok (Some (MemTerm (MemTermBlueprint.new
                         (FieldIndex.takeGenerationGuard fieldIndex)
                         (FieldIndex.findFrozen (termAsString term) fieldIndex)
                         (FieldIndex.getFeatureStore fieldIndex)
                         field fieldId (fs_isFilter field))),
        [Log debug (SearchingFor (termAsString term) (fs_getName field));
         GetFieldIndex fieldId; TakeGenerationGuard fieldId;
         FindFrozen fieldId (termAsString term)]).
Proof.
  intros fieldId Hknown Hvis Hfi Hterm. unfold createBlueprint. fold fieldId.
  destruct (N.eqb_spec fieldId Schema.UNKNOWN_FIELD_ID) as [E|_]; [done|].
  rewrite Hvis.
  destruct term; try done;
    unfold CreateBlueprintVisitor.accept,
      CreateBlueprintVisitor.handleNumberTermAsText,
      CreateBlueprintVisitor.visitTerm; simpl; by rewrite Hfi.
Qed.

(** C7: for a known, visible field and a text-matching term the blueprint
    returned by [createBlueprint] already carries its hit estimate: the
    stored estimate counts the postings of the frozen cursor and is flagged
    empty exactly when the cursor is not valid, that is, when the term has
    no postings. *)
Theorem createBlueprint_estimate_is_eager (requestContext : IRequestContext)
    (field : FieldSpec) (term : Node) (fieldIndexes : FieldIndexCollection)
    (s : MemoryIndex) (fieldIndex : FieldIndex.t) :
  let fieldId := Schema.getIndexFieldId (fs_getName field) (_schema s) in
  let pitr := FieldIndex.findFrozen (termAsString term) fieldIndex in
  fieldId <> Schema.UNKNOWN_FIELD_ID ->
  _hiddenFields s !! N.to_nat fieldId = Some false ->
  getFieldIndex fieldId fieldIndexes = Some fieldIndex ->
  isTextMatching term = true ->
  exists b ev,
    createBlueprint requestContext field term fieldIndexes s =
      Ok (Some (MemTerm b), ev)
    /\ MemTermBlueprint._pitr b = pitr
    /\ MemTermBlueprint._estimate b =
         mkHitEstimate (pitr_size pitr) (negb (pitr_valid pitr))
    /\ getEstimate (MemTerm b) = MemTermBlueprint._estimate b
    /\ (empty (getEstimate (MemTerm b)) = true <-> pitr_valid pitr = false)
    /\ (empty (getEstimate (MemTerm b)) = true <-> pitr = []).
Proof.
  intros fieldId pitr Hknown Hvis Hfi Htext.
  assert (term <> PredicateQuery) as Hterm by (by destruct term).
  eexists _, _. split.
  { by apply (createBlueprint_visible requestContext field term fieldIndexes s
                fieldIndex). }
  fold pitr. simpl. repeat split; try done.
  - by destruct (pitr_valid pitr).
  - by destruct (pitr_valid pitr).
  - by destruct pitr.
  - by intros ->.
Qed.

Lemma createBlueprint_estimate_is_eager_witness :
  exists b ev,
    createBlueprint 0 title_field (StringTerm "car") sample_fieldIndexes
      (MemoryIndex_new sample_schema 1 2 3) = Ok (Some (MemTerm b), ev)
    /\ MemTermBlueprint._estimate b = mkHitEstimate 2 false.
Proof.
  destruct (createBlueprint_estimate_is_eager 0 title_field (StringTerm "car")
              sample_fieldIndexes (MemoryIndex_new sample_schema 1 2 3)
              (FieldIndex.mk {["car" := [mkPosting 1 10; mkPosting 2 11]]} 100 3))
    as (b & ev & Hbp & _ & Hest & _).
  - discriminate.
  - reflexivity.
  - reflexivity.
  - reflexivity.
  - exists b, ev. split; [exact Hbp | exact Hest].
Defined.

(** C8: for a known, visible field every blueprint [createBlueprint]
    returns is a term blueprint whose bitvector flag is the field's filter
    configuration; executing it returns the [BooleanMatchIteratorWrapper]
    around the posting iterator when the field is a filter field and the
    bare [PostingIterator] otherwise, whatever the field index collection
    holds.  A blueprint is returned for every term but the predicate query
    as soon as the field has its field index. *)
Theorem createLeafSearch_follows_filter_configuration
    (requestContext : IRequestContext) (field : FieldSpec) (term : Node)
    (fieldIndexes : FieldIndexCollection) (s : MemoryIndex)
    (bp : Blueprint) (ev : list Event) :
  Schema.getIndexFieldId (fs_getName field) (_schema s)
    <> Schema.UNKNOWN_FIELD_ID ->
  _hiddenFields s
    !! N.to_nat (Schema.getIndexFieldId (fs_getName field) (_schema s))
    = Some false ->
  createBlueprint requestContext field term fieldIndexes s = Ok (Some bp, ev) ->
  exists b,
    bp = MemTerm b
    /\ MemTermBlueprint._useBitVector b = fs_isFilter field
    /\ (forall tfmda,
          (createLeafSearch bp tfmda).1 =
            let search :=
              PostingIterator (MemTermBlueprint._pitr b)
                (MemTermBlueprint._featureStore b)
                (MemTermBlueprint._fieldId b) tfmda in
            if fs_isFilter field
            then BooleanMatchIteratorWrapper search tfmda
            else search)
    /\ (forall tfmda,
          isBooleanMatchIteratorWrapper (createLeafSearch bp tfmda).1 =
          fs_isFilter field)
    /\ (forall fieldIndexes' fieldIndex',
          getFieldIndex (Schema.getIndexFieldId (fs_getName field) (_schema s))
            fieldIndexes' = Some fieldIndex' ->
          exists b' ev',
            createBlueprint requestContext field term fieldIndexes' s =
              Ok (Some (MemTerm b'), ev')
            /\ forall tfmda,
                 isBooleanMatchIteratorWrapper
                   (createLeafSearch (MemTerm b') tfmda).1 =
                 isBooleanMatchIteratorWrapper (createLeafSearch bp tfmda).1).
Proof.
  intros Hknown Hvis Hbp.
  set (fieldId := Schema.getIndexFieldId (fs_getName field) (_schema s)) in *.
  assert (term <> PredicateQuery) as Hterm.
  { intros ->. unfold createBlueprint in Hbp. fold fieldId in Hbp.
    destruct (N.eqb_spec fieldId Schema.UNKNOWN_FIELD_ID) as [E|_]; [done|].
    rewrite Hvis in Hbp. simpl in Hbp. discriminate Hbp. }
  destruct (getFieldIndex fieldId fieldIndexes) as [fieldIndex|] eqn:Hfi.
  2:{ exfalso. unfold createBlueprint in Hbp. fold fieldId in Hbp.
      destruct (N.eqb_spec fieldId Schema.UNKNOWN_FIELD_ID) as [E|_]; [done|].
      rewrite Hvis in Hbp.
      destruct term; try done;
        unfold CreateBlueprintVisitor.accept,
          CreateBlueprintVisitor.handleNumberTermAsText,
          CreateBlueprintVisitor.visitTerm in Hbp; simpl in Hbp;
        rewrite Hfi in Hbp; discriminate Hbp. }
  rewrite (createBlueprint_visible requestContext field term fieldIndexes s
             fieldIndex Hknown Hvis Hfi Hterm) in Hbp.
  injection Hbp as <- <-. eexists. split; [reflexivity|].
  split; [reflexivity|].
  assert (forall tfmda b,
            MemTermBlueprint._useBitVector b = fs_isFilter field ->
            isBooleanMatchIteratorWrapper (createLeafSearch (MemTerm b) tfmda).1
            = fs_isFilter field) as Hkind.
  { intros tfmda b Hb. simpl. unfold MemTerm_createLeafSearch. rewrite Hb.
    by destruct (fs_isFilter field). }
  split.
  { intros tfmda. simpl. unfold MemTerm_createLeafSearch. simpl.
    by destruct (fs_isFilter field). }
  split; [intros tfmda; by apply Hkind|].
  intros fieldIndexes' fieldIndex' Hfi'. eexists _, _. split.
  { by apply (createBlueprint_visible requestContext field term fieldIndexes' s
                fieldIndex'). }
  intros tfmda. by rewrite !Hkind.
Qed.

Lemma createLeafSearch_follows_filter_configuration_witness :
  exists b,
    createBlueprint 0 title_filter_field (StringTerm "car") sample_fieldIndexes
      (MemoryIndex_new sample_schema 1 2 3) =
      Ok (Some (MemTerm b),
          [Log debug (SearchingFor "car" "title"); GetFieldIndex 0;
           TakeGenerationGuard 0; FindFrozen 0 "car"])
    /\ (createLeafSearch (MemTerm b) [4]).1 =
         BooleanMatchIteratorWrapper
           (PostingIterator [mkPosting 1 10; mkPosting 2 11] 100 0 [4]) [4].
Proof.
  destruct (createLeafSearch_follows_filter_configuration 0 title_filter_field
              (StringTerm "car") sample_fieldIndexes
              (MemoryIndex_new sample_schema 1 2 3)
              (MemTerm (MemTermBlueprint.new (mkGuard (Some 3))
                          [mkPosting 1 10; mkPosting 2 11] 100
                          title_filter_field 0 true))
              [Log debug (SearchingFor "car" "title"); GetFieldIndex 0;
               TakeGenerationGuard 0; FindFrozen 0 "car"])
    as (b & Hb & _ & Hsearch & _).
  - discriminate.
  - reflexivity.
  - reflexivity.
  - exists b. rewrite <- Hb. split; [reflexivity|].
    rewrite (Hsearch [4]). injection Hb as <-. reflexivity.
Defined.

(** ** Reachable states keep the two-inverter discipline *)

Lemma step_wf_inverters op s s' ev :
  wf_inverters s -> step op s = Ok (s', ev) -> wf_inverters s'.
Proof.
  intros Hwf. destruct op as [docId doc|docId|tok| |schema]; simpl.
  - intros [= E].
    destruct (insertDocument_frame docId doc s) as (_ & _ & _ & Hi & H0 & H1).
    rewrite E in Hi, H0, H1. simpl in Hi, H0, H1.
    unfold wf_inverters. by rewrite Hi, H0, H1.
  - intros [= E]. revert E. unfold removeDocument.
    destruct (_frozen s); [by intros [= <- _]|].
    case_bool_decide; by intros [= <- _].
  - intros [= <- _]. by apply flipInverter_wf.
  - by intros [= <- _].
  - unfold pruneRemovedFields.
    destruct (match _prunedSchema s with Some _ => _ | None => _ end)
      as [newSchema|]; [|by intros [= <- _]].
    destruct (pruneLoop _ _ _ _); simpl; try done. by intros [= <- _].
Qed.

Lemma run_wf_inverters ops : forall s s' ev,
  wf_inverters s -> run ops s = Ok (s', ev) -> wf_inverters s'.
Proof.
  induction ops as [|op ops IH]; intros s s' ev Hwf; simpl.
  - by intros [= <- _].
  - destruct (step op s) as [[s1 ev1]| | |] eqn:Hs; simpl; try done.
    destruct (run ops s1) as [[s2 ev2]| | |] eqn:Hr; simpl; try done.
    intros [= <- _]. eapply IH; [|exact Hr]. by eapply step_wf_inverters.
Qed.

(** * Further properties of the orchestrator *)

(** ** What one operation emits and which pointers it keeps *)

Lemma insertDocument_events docId doc s :
  (insertDocument docId doc s).2 =
    if _frozen s
    then [Log warning (IgnoringInsert (doc_getId doc) docId (doc_toString doc))]
    else [InvertDocument (_inverter s) docId doc].
Proof.
  unfold insertDocument, updateMaxDocId. destruct (_frozen s); [done|].
  destruct (_maxDocId s <? docId); by destruct (bool_decide _).
Qed.

Lemma removeDocument_events docId s :
  (removeDocument docId s).2 =
    if _frozen s
    then [Log warning (IgnoringRemove docId)]
    else [RemoveDocument (_inverter s) docId].
Proof.
  unfold removeDocument. destruct (_frozen s); [done|].
  by destruct (bool_decide _).
Qed.

Lemma removeDocument_frame docId s :
  _schema (removeDocument docId s).1 = _schema s
  /\ _hiddenFields (removeDocument docId s).1 = _hiddenFields s
  /\ _prunedSchema (removeDocument docId s).1 = _prunedSchema s
  /\ _inverter (removeDocument docId s).1 = _inverter s
  /\ _inverter0 (removeDocument docId s).1 = _inverter0 s
  /\ _inverter1 (removeDocument docId s).1 = _inverter1 s
  /\ _fieldIndexes (removeDocument docId s).1 = _fieldIndexes s
  /\ _maxDocId (removeDocument docId s).1 = _maxDocId s.
Proof.
  unfold removeDocument. destruct (_frozen s); [done|].
  by destruct (bool_decide _).
Qed.

Lemma insertDocument_fieldIndexes docId doc s :
  _fieldIndexes (insertDocument docId doc s).1 = _fieldIndexes s.
Proof.
  unfold insertDocument, updateMaxDocId. destruct (_frozen s); [done|].
  destruct (_maxDocId s <? docId); by destruct (bool_decide _).
Qed.

Lemma pruneRemovedFields_frame schema s s' :
  pruneRemovedFields schema s = Ok s' ->
  _schema s' = _schema s /\ _inverter s' = _inverter s
  /\ _inverter0 s' = _inverter0 s /\ _inverter1 s' = _inverter1 s
  /\ _fieldIndexes s' = _fieldIndexes s /\ _frozen s' = _frozen s
  /\ _maxDocId s' = _maxDocId s /\ _numDocs s' = _numDocs s
  /\ _indexedDocs s' = _indexedDocs s.
Proof.
  unfold pruneRemovedFields.
  destruct (match _prunedSchema s with Some _ => _ | None => _ end) as [newSchema|].
  - destruct (pruneLoop _ _ _ _); simpl; intros [= <-]; by repeat split.
  - intros [= <-]. by repeat split.
Qed.

(** The shape of one step: the events it emits, and what it does to the
    pointers. *)
Lemma step_shape op s s' ev :
  step op s = Ok (s', ev) ->
  _inverter0 s' = _inverter0 s /\ _inverter1 s' = _inverter1 s
  /\ _fieldIndexes s' = _fieldIndexes s
  /\ match op with
     | OpInsert docId doc =>
         _inverter s' = _inverter s
         /\ ev = (if _frozen s
                  then [Log warning (IgnoringInsert (doc_getId doc) docId
                                       (doc_toString doc))]
                  else [InvertDocument (_inverter s) docId doc])
     | OpRemove docId =>
         _inverter s' = _inverter s
         /\ ev = (if _frozen s then [Log warning (IgnoringRemove docId)]
                  else [RemoveDocument (_inverter s) docId])
     | OpCommit onWriteDone =>
         _inverter s' = standbyInverter s
         /\ ev = [InvertThreadsSync; PushThreadsSync;
                  PushDocuments (_inverter s) (_fieldIndexes s) onWriteDone]
     | OpFreeze | OpPrune _ => _inverter s' = _inverter s /\ ev = []
     end.
Proof.
  destruct op as [docId doc|docId|tok| |schema]; simpl.
  - intros [= E].
    destruct (insertDocument_frame docId doc s) as (_ & _ & _ & Hi & H0 & H1).
    pose proof (insertDocument_fieldIndexes docId doc s) as Hf.
    pose proof (insertDocument_events docId doc s) as He.
    rewrite E in Hi, H0, H1, Hf, He. by simpl in *.
  - intros [= E].
    destruct (removeDocument_frame docId s) as (_ & _ & _ & Hi & H0 & H1 & Hf & _).
    pose proof (removeDocument_events docId s) as He.
    rewrite E in Hi, H0, H1, Hf, He. by simpl in *.
  - intros [= <- <-]. repeat split; try done. apply flipInverter_inverter.
  - intros [= <- <-]. by repeat split.
  - destruct (pruneRemovedFields schema s) as [s1| | |] eqn:Hp; simpl; try done.
    intros [= <- <-].
    destruct (pruneRemovedFields_frame _ _ _ Hp) as (_ & Hi & H0 & H1 & Hf & _).
    by repeat split.
Qed.

Lemma run_cons_inv op ops s s' ev :
  run (op :: ops) s = Ok (s', ev) ->
  exists s1 ev1 ev2,
    step op s = Ok (s1, ev1) /\ run ops s1 = Ok (s', ev2) /\ ev = ev1 ++ ev2.
Proof.
  simpl. destruct (step op s) as [[s1 ev1]| | |]; simpl; try done.
  destruct (run ops s1) as [[s2 ev2]| | |] eqn:Hr; simpl; try done.
  intros [= <- <-]. by exists s1, ev1, ev2.
Qed.

Lemma standbyInverter_flipped s s' :
  wf_inverters s ->
  _inverter0 s' = _inverter0 s -> _inverter1 s' = _inverter1 s ->
  _inverter s' = standbyInverter s ->
  standbyInverter s' = _inverter s.
Proof.
  intros [Hne Hact] H0 H1 Hi. unfold standbyInverter in *. rewrite Hi, H0, H1.
  destruct (N.eqb_spec (_inverter s) (_inverter0 s)) as [E|E].
  - destruct (N.eqb_spec (_inverter1 s) (_inverter0 s)); congruence.
  - rewrite N.eqb_refl. destruct Hact; congruence.
Qed.

Lemma standbyInverter_kept s s' :
  _inverter0 s' = _inverter0 s -> _inverter1 s' = _inverter1 s ->
  _inverter s' = _inverter s ->
  standbyInverter s' = standbyInverter s.
Proof. intros H0 H1 Hi. unfold standbyInverter. by rewrite Hi, H0, H1. Qed.

(** ** The double-buffer discipline *)

(** X1: in the trace of any run, documents are inverted into and removed
    from the inverter that is active at that time, each commit pushes that
    same inverter, and the inverter that then becomes active is the one the
    next commit pushes. *)
Theorem run_follows_double_buffer (ops : list Op) :
  forall (s s' : MemoryIndex) (ev : list Event),
    wf_inverters s ->
    run ops s = Ok (s', ev) ->
    follows_double_buffer (_inverter s) (standbyInverter s) ev.
Proof.
  induction ops as [|op ops IH]; intros s s' ev Hwf Hrun.
  - simpl in Hrun. by injection Hrun as <- <-.
  - destruct (run_cons_inv _ _ _ _ _ Hrun) as (s1 & ev1 & ev2 & Hs & Hr & ->).
    assert (wf_inverters s1) as Hwf1 by (by eapply step_wf_inverters).
    specialize (IH s1 s' ev2 Hwf1 Hr).
    destruct (step_shape _ _ _ _ Hs) as (H0 & H1 & _ & Hop).
    destruct op as [docId doc|docId|tok| |schema]; destruct Hop as [Hi ->].
    + rewrite Hi, (standbyInverter_kept s s1) in IH by done.
      by destruct (_frozen s).
    + rewrite Hi, (standbyInverter_kept s s1) in IH by done.
      by destruct (_frozen s).
    + rewrite Hi, (standbyInverter_flipped s s1) in IH by done. by split.
    + by rewrite Hi, (standbyInverter_kept s s1) in IH.
    + by rewrite Hi, (standbyInverter_kept s s1) in IH.
Qed.

Lemma run_follows_double_buffer_witness :
  follows_double_buffer 1 2
    [InvertDocument 1 5 sample_doc;
     InvertThreadsSync; PushThreadsSync; PushDocuments 1 3 9;
     RemoveDocument 2 5;
     InvertThreadsSync; PushThreadsSync; PushDocuments 2 3 10].
Proof.
  apply (run_follows_double_buffer
           [OpInsert 5 sample_doc; OpCommit 9; OpRemove 5; OpCommit 10]
           (MemoryIndex_new sample_schema 1 2 3)
           (set_indexedDocs ∅
              (set_numDocs 0
                 (updateMaxDocId 5 (MemoryIndex_new sample_schema 1 2 3))))).
  - split; [discriminate | by left].
  - vm_compute. reflexivity.
Defined.

(** X2: in the trace of any run every [pushDocuments] call comes right
    after the drain of the invert executor followed by the drain of the
    push executor, and it targets the field index collection the index was
    built with, which is never replaced. *)
Theorem run_pushes_follow_drains (ops : list Op) :
  forall (s s' : MemoryIndex) (ev : list Event),
    run ops s = Ok (s', ev) ->
    pushes_follow_drains (_fieldIndexes s) ev
    /\ _fieldIndexes s' = _fieldIndexes s.
Proof.
  induction ops as [|op ops IH]; intros s s' ev Hrun.
  - simpl in Hrun. by injection Hrun as <- <-.
  - destruct (run_cons_inv _ _ _ _ _ Hrun) as (s1 & ev1 & ev2 & Hs & Hr & ->).
    destruct (IH s1 s' ev2 Hr) as [IHev IHf].
    destruct (step_shape _ _ _ _ Hs) as (_ & _ & Hf & Hop).
    rewrite Hf in IHev, IHf. split; [|exact IHf].
    destruct op as [docId doc|docId|tok| |schema]; destruct Hop as [_ ->];
      try (by destruct (_frozen s)); done.
Qed.

Lemma run_pushes_follow_drains_witness :
  pushes_follow_drains 3
    [InvertDocument 1 5 sample_doc;
     InvertThreadsSync; PushThreadsSync; PushDocuments 1 3 9;
     RemoveDocument 2 5;
     InvertThreadsSync; PushThreadsSync; PushDocuments 2 3 10].
Proof.
  apply (run_pushes_follow_drains
           [OpInsert 5 sample_doc; OpCommit 9; OpRemove 5; OpCommit 10]
           (MemoryIndex_new sample_schema 1 2 3)
           (set_indexedDocs ∅
              (set_numDocs 0
                 (updateMaxDocId 5 (MemoryIndex_new sample_schema 1 2 3))))).
  vm_compute. reflexivity.
Defined.

(** X3: a run emits exactly one [pushDocuments] call per [commit], frozen
    or not: [freeze] stops insertions and removals but not commits. *)
Theorem run_pushes_once_per_commit (ops : list Op) :
  forall (s s' : MemoryIndex) (ev : list Event),
    run ops s = Ok (s', ev) ->
    length (List.filter is_push ev) = length (List.filter is_commit ops).
Proof.
  induction ops as [|op ops IH]; intros s s' ev Hrun.
  - simpl in Hrun. by injection Hrun as <- <-.
  - destruct (run_cons_inv _ _ _ _ _ Hrun) as (s1 & ev1 & ev2 & Hs & Hr & ->).
    specialize (IH s1 s' ev2 Hr).
    destruct (step_shape _ _ _ _ Hs) as (_ & _ & _ & Hop).
    rewrite List.filter_app, length_app, IH.
    destruct op as [docId doc|docId|tok| |schema]; destruct Hop as [_ ->];
      try (by destruct (_frozen s)); done.
Qed.

Lemma run_pushes_once_per_commit_witness :
  length (List.filter is_push
            [Log warning (IgnoringInsert "id:test:doc::1" 5 "red car");
             InvertThreadsSync; PushThreadsSync; PushDocuments 1 3 9;
             InvertThreadsSync; PushThreadsSync; PushDocuments 2 3 10]) = 2%nat.
Proof.
  apply (run_pushes_once_per_commit
           [OpFreeze; OpInsert 5 sample_doc; OpCommit 9; OpCommit 10]
           (MemoryIndex_new sample_schema 1 2 3)
           (freeze (MemoryIndex_new sample_schema 1 2 3))).
  vm_compute. reflexivity.
Defined.

(** X4: which inverter is active after a run is told by the parity of the
    number of commits alone: the initial one after an even number, the
    other one after an odd number. *)
Theorem run_active_inverter_parity (ops : list Op) :
  forall (s s' : MemoryIndex) (ev : list Event),
    wf_inverters s ->
    run ops s = Ok (s', ev) ->
    _inverter s' =
      if Nat.even (length (List.filter is_commit ops))
      then _inverter s else standbyInverter s.
Proof.
  induction ops as [|op ops IH]; intros s s' ev Hwf Hrun.
  - simpl in Hrun. by injection Hrun as <- <-.
  - destruct (run_cons_inv _ _ _ _ _ Hrun) as (s1 & ev1 & ev2 & Hs & Hr & ->).
    assert (wf_inverters s1) as Hwf1 by (by eapply step_wf_inverters).
    rewrite (IH s1 s' ev2 Hwf1 Hr).
    destruct (step_shape _ _ _ _ Hs) as (H0 & H1 & _ & Hop).
    destruct op as [docId doc|docId|tok| |schema]; destruct Hop as [Hi _];
      try (simpl; by rewrite Hi, (standbyInverter_kept s s1)).
    cbn [List.filter is_commit length].
    rewrite Nat.even_succ, <- Nat.negb_even.
    rewrite Hi, (standbyInverter_flipped s s1) by done.
    by destruct (Nat.even _).
Qed.

Lemma run_active_inverter_parity_witness :
  _inverter (commit 11 (commit 10 (commit 9
               (MemoryIndex_new sample_schema 1 2 3)).1).1).1 = 2.
Proof.
  apply (run_active_inverter_parity
           [OpCommit 9; OpCommit 10; OpCommit 11]
           (MemoryIndex_new sample_schema 1 2 3)
           (commit 11 (commit 10 (commit 9
              (MemoryIndex_new sample_schema 1 2 3)).1).1).1
           [InvertThreadsSync; PushThreadsSync; PushDocuments 1 3 9;
            InvertThreadsSync; PushThreadsSync; PushDocuments 2 3 10;
            InvertThreadsSync; PushThreadsSync; PushDocuments 1 3 11]).
  - split; [discriminate | by left].
  - reflexivity.
Defined.

(** ** The indexed-document set, one id at a time *)

Lemma insertDocument_indexedDocs docId doc s :
  _indexedDocs (insertDocument docId doc s).1 =
    if _frozen s then _indexedDocs s else {[docId]} ∪ _indexedDocs s.
Proof.
  unfold insertDocument, updateMaxDocId. destruct (_frozen s); [done|].
  destruct (_maxDocId s <? docId); by destruct (bool_decide _).
Qed.

Lemma removeDocument_indexedDocs docId s :
  _indexedDocs (removeDocument docId s).1 =
    if _frozen s then _indexedDocs s else _indexedDocs s ∖ {[docId]}.
Proof.
  unfold removeDocument. destruct (_frozen s); [done|].
  case_bool_decide as Hd; [done|]. simpl.
  apply set_eq. intros d. rewrite elem_of_difference, elem_of_singleton.
  split; [|by intros [? _]]. intros Hin. split; [done|]. by intros ->.
Qed.

(** X5: inserting or removing document id [d] never changes whether another
    id is indexed, on a frozen index as on an unfrozen one. *)
Theorem insert_remove_leave_other_ids (d d' : N) (doc : Document)
    (s : MemoryIndex) :
  d <> d' ->
  (d' ∈ _indexedDocs (insertDocument d doc s).1 <-> d' ∈ _indexedDocs s)
  /\ (d' ∈ _indexedDocs (removeDocument d s).1 <-> d' ∈ _indexedDocs s).
Proof.
  intros Hne. rewrite insertDocument_indexedDocs, removeDocument_indexedDocs.
  destruct (_frozen s); [done|].
  rewrite elem_of_union, elem_of_difference, !elem_of_singleton.
  split; split; try tauto.
  - intros [E|H]; [by destruct Hne | done].
  - intros H. split; [done|]. by intros ->.
Qed.

Lemma insert_remove_leave_other_ids_witness :
  (7 ∈ _indexedDocs (insertDocument 5 sample_doc
                       (MemoryIndex_new sample_schema 1 2 3)).1
   <-> 7 ∈ _indexedDocs (MemoryIndex_new sample_schema 1 2 3))
  /\ (5 ∈ _indexedDocs
            (removeDocument 7 (insertDocument 5 sample_doc
                                 (MemoryIndex_new sample_schema 1 2 3)).1).1
      <-> 5 ∈ _indexedDocs (insertDocument 5 sample_doc
                              (MemoryIndex_new sample_schema 1 2 3)).1).
Proof.
  split.
  - apply (insert_remove_leave_other_ids 5 7 sample_doc
             (MemoryIndex_new sample_schema 1 2 3)). discriminate.
  - apply (insert_remove_leave_other_ids 7 5 sample_doc
             (insertDocument 5 sample_doc
                (MemoryIndex_new sample_schema 1 2 3)).1). discriminate.
Defined.

Lemma step_indexed d op s s' ev :
  step op s = Ok (s', ev) ->
  _frozen s' = (match op with OpFreeze => true | _ => _frozen s end)
  /\ bool_decide (d ∈ _indexedDocs s') =
       match op with
       | OpInsert d' _ =>
           if _frozen s then bool_decide (d ∈ _indexedDocs s)
           else if d' =? d then true else bool_decide (d ∈ _indexedDocs s)
       | OpRemove d' =>
           if _frozen s then bool_decide (d ∈ _indexedDocs s)
           else if d' =? d then false else bool_decide (d ∈ _indexedDocs s)
       | _ => bool_decide (d ∈ _indexedDocs s)
       end.
Proof.
  destruct op as [docId doc|docId|tok| |schema]; simpl.
  - intros [= E].
    pose proof (insertDocument_frozen_flag docId doc s) as Hf.
    pose proof (insertDocument_indexedDocs docId doc s) as Hd.
    rewrite E in Hf, Hd. simpl in Hf, Hd. split; [exact Hf|]. rewrite Hd.
    destruct (_frozen s); [done|].
    destruct (N.eqb_spec docId d) as [->|Hne].
    + apply bool_decide_eq_true_2, elem_of_insert_self.
    + apply bool_decide_ext. rewrite elem_of_union, elem_of_singleton.
      split; [|by right]. intros [->|H]; done.
  - intros [= E].
    pose proof (removeDocument_frozen_flag docId s) as Hf.
    pose proof (removeDocument_indexedDocs docId s) as Hd.
    rewrite E in Hf, Hd. simpl in Hf, Hd. split; [exact Hf|]. rewrite Hd.
    destruct (_frozen s); [done|].
    destruct (N.eqb_spec docId d) as [->|Hne].
    + apply bool_decide_eq_false_2, not_elem_of_remove_self.
    + apply bool_decide_ext. rewrite elem_of_difference, elem_of_singleton.
      split; [by intros [? _] | intros H; split; [done | by intros ->]].
  - by intros [= <- _].
  - by intros [= <- _].
  - destruct (pruneRemovedFields schema s) as [s1| | |] eqn:Hp; simpl; try done.
    intros [= <- _].
    destruct (pruneRemovedFields_frame _ _ _ Hp)
      as (_ & _ & _ & _ & _ & Hf & _ & _ & Hd).
    by rewrite Hf, Hd.
Qed.

(** X6: whether document id [d] is indexed after a run is decided by the
    operations on [d] itself made before the index was frozen: the last such
    insertion or removal wins, and with none of them [d] is indexed exactly
    if it was before. *)
Theorem run_indexed_by_last_operation (d : N) (ops : list Op) :
  forall (s s' : MemoryIndex) (ev : list Event),
    run ops s = Ok (s', ev) ->
    bool_decide (d ∈ _indexedDocs s') =
    indexed_after d ops (_frozen s) (bool_decide (d ∈ _indexedDocs s)).
Proof.
  induction ops as [|op ops IH]; intros s s' ev Hrun.
  - simpl in Hrun. by injection Hrun as <- <-.
  - destruct (run_cons_inv _ _ _ _ _ Hrun) as (s1 & ev1 & ev2 & Hs & Hr & ->).
    rewrite (IH s1 s' ev2 Hr).
    destruct (step_indexed d _ _ _ _ Hs) as [-> ->].
    by destruct op.
Qed.

Lemma run_indexed_by_last_operation_witness :
  bool_decide
    (5 ∈ _indexedDocs
           (insertDocument 5 sample_doc
              (freeze (removeDocument 5
                         (insertDocument 5 sample_doc
                            (MemoryIndex_new sample_schema 1 2 3)).1).1)).1)
  = false.
Proof.
  apply (run_indexed_by_last_operation 5
           [OpInsert 5 sample_doc; OpRemove 5; OpFreeze; OpInsert 5 sample_doc]
           (MemoryIndex_new sample_schema 1 2 3)
           (insertDocument 5 sample_doc
              (freeze (removeDocument 5
                         (insertDocument 5 sample_doc
                            (MemoryIndex_new sample_schema 1 2 3)).1).1)).1
           [InvertDocument 1 5 sample_doc; RemoveDocument 1 5;
            Log warning (IgnoringInsert "id:test:doc::1" 5 "red car")]).
  reflexivity.
Defined.

(** ** A frozen index *)

Lemma step_frozen_frame op s s' ev :
  _frozen s = true -> step op s = Ok (s', ev) ->
  _indexedDocs s' = _indexedDocs s /\ _numDocs s' = _numDocs s
  /\ _maxDocId s' = _maxDocId s /\ forallb (fun e => negb (stages e)) ev = true.
Proof.
  intros Hf. destruct op as [docId doc|docId|tok| |schema]; simpl.
  - unfold insertDocument. rewrite Hf. by intros [= <- <-].
  - unfold removeDocument. rewrite Hf. by intros [= <- <-].
  - by intros [= <- <-].
  - by intros [= <- <-].
  - destruct (pruneRemovedFields schema s) as [s1| | |] eqn:Hp; simpl; try done.
    intros [= <- <-].
    destruct (pruneRemovedFields_frame _ _ _ Hp)
      as (_ & _ & _ & _ & _ & _ & Hm & Hn & Hd).
    by repeat split.
Qed.

(** X7: once the index is frozen, no run of operations changes the
    indexed-document set, the live document count or the max doc id, and its
    trace holds no [invertDocument] or [removeDocument] call on an inverter:
    what the inverters have staged stays as it was. *)
Theorem frozen_run_keeps_documents (ops : list Op) :
  forall (s s' : MemoryIndex) (ev : list Event),
    _frozen s = true ->
    run ops s = Ok (s', ev) ->
    _indexedDocs s' = _indexedDocs s
    /\ _numDocs s' = _numDocs s
    /\ _maxDocId s' = _maxDocId s
    /\ forallb (fun e => negb (stages e)) ev = true.
Proof.
  induction ops as [|op ops IH]; intros s s' ev Hf Hrun.
  - simpl in Hrun. by injection Hrun as <- <-.
  - destruct (run_cons_inv _ _ _ _ _ Hrun) as (s1 & ev1 & ev2 & Hs & Hr & ->).
    assert (_frozen s1 = true) as Hf1 by (by eapply step_keeps_frozen).
    destruct (IH s1 s' ev2 Hf1 Hr) as (-> & -> & -> & Hev2).
    destruct (step_frozen_frame _ _ _ _ Hf Hs) as (-> & -> & -> & Hev1).
    repeat split; try done. by rewrite forallb_app, Hev1, Hev2.
Qed.

Lemma frozen_run_keeps_documents_witness :
  _numDocs (commit 9 (insertDocument 6 sample_doc
              (removeDocument 5
                 (freeze (insertDocument 5 sample_doc
                            (MemoryIndex_new sample_schema 1 2 3)).1)).1).1).1
  = 1.
Proof.
  destruct (frozen_run_keeps_documents
              [OpRemove 5; OpInsert 6 sample_doc; OpCommit 9]
              (freeze (insertDocument 5 sample_doc
                         (MemoryIndex_new sample_schema 1 2 3)).1)
              (commit 9 (insertDocument 6 sample_doc
                 (removeDocument 5
                    (freeze (insertDocument 5 sample_doc
                               (MemoryIndex_new sample_schema 1 2 3)).1)).1).1).1
              [Log warning (IgnoringRemove 5);
               Log warning (IgnoringInsert "id:test:doc::1" 6 "red car");
               InvertThreadsSync; PushThreadsSync; PushDocuments 1 3 9]
              eq_refl eq_refl) as (_ & Hn & _).
  exact Hn.
Defined.

(** ** Pruning over whole runs *)

Lemma step_hidden_length op s :
  length (_hiddenFields s) = length (Schema._indexFields (_schema s)) ->
  exists s' ev,
    step op s = Ok (s', ev)
    /\ _schema s' = _schema s
    /\ length (_hiddenFields s') = length (Schema._indexFields (_schema s)).
Proof.
  intros Hl. destruct op as [docId doc|docId|tok| |schema]; simpl.
  - exists (insertDocument docId doc s).1, (insertDocument docId doc s).2.
    destruct (insertDocument_frame docId doc s) as (-> & -> & _).
    by destruct (insertDocument docId doc s).
  - exists (removeDocument docId s).1, (removeDocument docId s).2.
    destruct (removeDocument_frame docId s) as (-> & -> & _).
    by destruct (removeDocument docId s).
  - by eexists _, _.
  - by eexists _, _.
  - rewrite (pruneRemovedFields_cases schema s Hl).
    case_decide; eexists _, _; (split; [reflexivity|]); [done|].
    split; [done | apply length_hiddenFieldsFor].
Qed.

(** X8: from any index whose hidden-field vector has one entry per field
    of its schema, as the constructor builds it, every run of operations
    returns normally: the assertion in the loop of [pruneRemovedFields]
    never fails, because the original schema is never replaced and the
    vector never changes its length. *)
Theorem run_never_fails_assertion (ops : list Op) :
  forall s : MemoryIndex,
    length (_hiddenFields s) = length (Schema._indexFields (_schema s)) ->
    exists s' ev,
      run ops s = Ok (s', ev)
      /\ _schema s' = _schema s
      /\ length (_hiddenFields s') = length (Schema._indexFields (_schema s)).
Proof.
  induction ops as [|op ops IH]; intros s Hl; simpl.
  - by eexists _, _.
  - destruct (step_hidden_length op s Hl) as (s1 & ev1 & -> & Hs1 & Hl1). simpl.
    rewrite <- Hs1 in Hl1. destruct (IH s1 Hl1) as (s2 & ev2 & -> & Hs2 & Hl2).
    simpl. eexists _, _. split; [reflexivity|]. rewrite <- Hs1. by split.
Qed.

Lemma run_never_fails_assertion_witness :
  exists s' ev,
    run [OpPrune (Schema.mk [Schema.mkIndexField "body" 0 1]);
         OpInsert 5 sample_doc; OpPrune (Schema.mk []); OpPrune sample_schema]
        (MemoryIndex_new sample_schema 1 2 3) = Ok (s', ev)
    /\ length (_hiddenFields s') = 2%nat.
Proof.
  destruct (run_never_fails_assertion
              [OpPrune (Schema.mk [Schema.mkIndexField "body" 0 1]);
               OpInsert 5 sample_doc; OpPrune (Schema.mk []);
               OpPrune sample_schema]
              (MemoryIndex_new sample_schema 1 2 3) eq_refl)
    as (s' & ev & Hrun & _ & Hl).
  exists s', ev. split; [exact Hrun | exact Hl].
Defined.

Lemma MemoryIndex_new_pruning_inv schema p0 p1 pf :
  pruning_inv (MemoryIndex_new schema p0 p1 pf).
Proof.
  unfold pruning_inv. rewrite MemoryIndex_new_hidden.
  change (effectiveSchema (MemoryIndex_new schema p0 p1 pf)) with schema.
  symmetry. apply hiddenFieldsFor_self.
Qed.

Lemma pruning_inv_length s :
  pruning_inv s ->
  length (_hiddenFields s) = length (Schema._indexFields (_schema s)).
Proof. intros ->. apply length_hiddenFieldsFor. Qed.

Lemma step_pruning op s s' ev :
  pruning_inv s -> step op s = Ok (s', ev) ->
  pruning_inv s'
  /\ _schema s' = _schema s
  /\ effectiveSchema s' =
       match op with
       | OpPrune schema => Schema.intersect (effectiveSchema s) schema
       | _ => effectiveSchema s
       end.
Proof.
  intros Hinv. unfold pruning_inv, effectiveSchema in *.
  destruct op as [docId doc|docId|tok| |schema]; simpl.
  - intros [= E].
    destruct (insertDocument_frame docId doc s) as (Hs & Hh & Hp & _).
    rewrite E in Hs, Hh, Hp. simpl in Hs, Hh, Hp. by rewrite Hs, Hh, Hp.
  - intros [= E].
    destruct (removeDocument_frame docId s) as (Hs & Hh & Hp & _).
    rewrite E in Hs, Hh, Hp. simpl in Hs, Hh, Hp. by rewrite Hs, Hh, Hp.
  - by intros [= <- _].
  - by intros [= <- _].
  - rewrite (pruneRemovedFields_cases schema s (pruning_inv_length s Hinv)).
    unfold effectiveSchema. case_decide as He; simpl; intros [= <- _].
    + by rewrite <- He.
    + done.
Qed.

(** A run keeps the pruning invariant and the original schema, and
    intersects the schema in force with each pruning argument. *)
Lemma run_pruning ops : forall (s s' : MemoryIndex) (ev : list Event),
  pruning_inv s ->
  run ops s = Ok (s', ev) ->
  pruning_inv s'
  /\ _schema s' = _schema s
  /\ effectiveSchema s' =
       fold_left Schema.intersect (pruned_with ops) (effectiveSchema s).
Proof.
  induction ops as [|op ops IH]; intros s s' ev Hinv Hrun.
  - simpl in Hrun. injection Hrun as <- <-. by repeat split.
  - destruct (run_cons_inv _ _ _ _ _ Hrun) as (s1 & ev1 & ev2 & Hs & Hr & ->).
    destruct (step_pruning _ _ _ _ Hinv Hs) as (Hinv1 & Hsch & Heff).
    destruct (IH s1 s' ev2 Hinv1 Hr) as (Hinv' & -> & ->).
    split; [exact Hinv'|]. split; [exact Hsch|].
    rewrite Heff. by destruct op.
Qed.

(** X9: after any run the schema in force (the pruned schema when set, the
    original schema otherwise) is the original schema intersected with
    every schema handed to [pruneRemovedFields], in call order, and the
    hidden-field vector is the one computed from that schema alone:
    recomputed at each call, not accumulated. *)
Theorem run_prunes_by_successive_intersection (ops : list Op) :
  forall (s s' : MemoryIndex) (ev : list Event),
    pruning_inv s ->
    run ops s = Ok (s', ev) ->
    effectiveSchema s' =
      fold_left Schema.intersect (pruned_with ops) (effectiveSchema s)
    /\ _hiddenFields s' = hiddenFieldsFor (effectiveSchema s') (_schema s)
    /\ _schema s' = _schema s.
Proof.
  intros s s' ev Hinv Hrun.
  destruct (run_pruning ops s s' ev Hinv Hrun) as (Hinv' & Hsch & Heff).
  split; [exact Heff|]. split; [|exact Hsch].
  unfold pruning_inv in Hinv'. by rewrite Hinv', Hsch.
Qed.

Lemma run_prunes_by_successive_intersection_witness :
  exists s' ev,
    run [OpPrune (Schema.mk [Schema.mkIndexField "body" 0 1;
                             Schema.mkIndexField "title" 0 0]);
         OpCommit 9;
         OpPrune (Schema.mk [Schema.mkIndexField "body" 0 1])]
        (MemoryIndex_new sample_schema 1 2 3) = Ok (s', ev)
    /\ effectiveSchema s' = Schema.mk [Schema.mkIndexField "body" 0 1]
    /\ _hiddenFields s' = [true; false].
Proof.
  eexists _, _. split; [reflexivity|].
  destruct (run_prunes_by_successive_intersection
              [OpPrune (Schema.mk [Schema.mkIndexField "body" 0 1;
                                   Schema.mkIndexField "title" 0 0]);
               OpCommit 9;
               OpPrune (Schema.mk [Schema.mkIndexField "body" 0 1])]
              (MemoryIndex_new sample_schema 1 2 3) _ _
              (MemoryIndex_new_pruning_inv sample_schema 1 2 3) eq_refl)
    as (Heff & Hhid & _).
  split; [exact Heff | exact Hhid].
Defined.

(** ** Pruning and blueprint construction together *)

Lemma intersect_elem (A B : Schema.t) (f : Schema.IndexField) :
  f ∈ Schema._indexFields (Schema.intersect A B) <->
  f ∈ Schema._indexFields A /\ f ∈ Schema._indexFields B.
Proof.
  unfold Schema.intersect, Schema.has_field. simpl.
  rewrite !list_elem_of_In, List.filter_In, bool_decide_eq_true.
  by rewrite !list_elem_of_In.
Qed.

Lemma fold_intersect_elem (Ss : list Schema.t) : forall (A : Schema.t) f,
  f ∈ Schema._indexFields (fold_left Schema.intersect Ss A) <->
  f ∈ Schema._indexFields A /\ forall S, S ∈ Ss -> f ∈ Schema._indexFields S.
Proof.
  induction Ss as [|B Ss IH]; intros A f; simpl.
  - split; [intros H; split; [done|] | by intros [? _]].
    intros S HS. by apply elem_of_nil in HS.
  - rewrite IH, intersect_elem. split.
    + intros [[HA HB] Hall]. split; [done|]. intros S HS.
      apply elem_of_cons in HS as [->|HS]; [done | by apply Hall].
    + intros [HA Hall]. split; [split; [done | apply Hall; by left]|].
      intros S HS. apply Hall. by right.
Qed.

Lemma fold_intersect_size (Ss : list Schema.t) : forall A : Schema.t,
  Schema.getNumIndexFields (fold_left Schema.intersect Ss A) <=
  Schema.getNumIndexFields A.
Proof.
  induction Ss as [|B Ss IH]; intros A; simpl; [lia|].
  etrans; [apply IH|]. unfold Schema.getNumIndexFields, Schema.intersect. simpl.
  pose proof (List.filter_length_le (Schema.has_field B) (Schema._indexFields A)).
  lia.
Qed.

(** A field name that no field of the schema in force carries gets the
    empty blueprint. *)
Lemma createBlueprint_lacking_name requestContext field term fieldIndexes s :
  pruning_inv s ->
  Schema.getNumIndexFields (effectiveSchema s) <= Schema.UNKNOWN_FIELD_ID ->
  lacks_name (fs_getName field) (effectiveSchema s) ->
  createBlueprint requestContext field term fieldIndexes s =
    Ok (Some (EmptyBlueprint field), []).
Proof.
  intros Hinv Hsmall Hlack. unfold createBlueprint.
  destruct (N.eqb_spec (Schema.getIndexFieldId (fs_getName field) (_schema s))
              Schema.UNKNOWN_FIELD_ID) as [E|E]; [done|].
  unfold Schema.getIndexFieldId in *.
  destruct (Schema.find_from (fs_getName field) (Schema._indexFields (_schema s)) 0)
    as [j|] eqn:Hfind; [|done].
  destruct (find_from_bounds _ _ _ _ Hfind) as (Hb & g & Hg & Hname).
  rewrite N.sub_0_r in Hg.
  assert (N.to_nat j < length (Schema._indexFields (_schema s)))%nat as Hj by lia.
  rewrite Hinv, (hiddenFieldsFor_lookup _ _ _ Hj).
  destruct (hasCounterpart (effectiveSchema s) (_schema s) (N.to_nat j)) eqn:Hc;
    [|done].
  exfalso. apply (hasCounterpart_by_name _ _ _ g Hsmall Hg) in Hc
    as (g' & Hg' & Hname').
  apply (Hlack g' Hg'). congruence.
Qed.

(** X10: once some [pruneRemovedFields] call has been given a schema with
    no field of a given name, [createBlueprint] for that name returns the
    empty blueprint, without touching the field index collection, after
    every later operation as well: later prune calls cannot bring the field
    back. *)
Theorem pruned_field_stays_hidden (S0 : Schema.t) (p0 p1 : InverterPtr)
    (pf : FieldIndexesPtr) (ops : list Op) (s : MemoryIndex) (ev : list Event)
    (pruned : Schema.t) (requestContext : IRequestContext) (field : FieldSpec)
    (term : Node) (fieldIndexes : FieldIndexCollection) :
  Schema.getNumIndexFields S0 <= Schema.UNKNOWN_FIELD_ID ->
  run ops (MemoryIndex_new S0 p0 p1 pf) = Ok (s, ev) ->
  pruned ∈ pruned_with ops ->
  lacks_name (fs_getName field) pruned ->
  createBlueprint requestContext field term fieldIndexes s =
    Ok (Some (EmptyBlueprint field), []).
Proof.
  intros Hsmall Hrun Hin Hlack.
  destruct (run_pruning _ _ _ _ (MemoryIndex_new_pruning_inv S0 p0 p1 pf) Hrun)
    as (Hinv & Hsch & Heff).
  change (effectiveSchema (MemoryIndex_new S0 p0 p1 pf)) with S0 in Heff.
  apply createBlueprint_lacking_name.
  - exact Hinv.
  - rewrite Heff. etrans; [apply fold_intersect_size | exact Hsmall].
  - intros g Hg. rewrite Heff in Hg. apply fold_intersect_elem in Hg as [_ Hall].
    apply Hlack. by apply Hall.
Qed.

Lemma pruned_field_stays_hidden_witness :
  exists s ev,
    run [OpPrune (Schema.mk [Schema.mkIndexField "body" 0 1]);
         OpInsert 5 sample_doc; OpPrune sample_schema]
        (MemoryIndex_new sample_schema 1 2 3) = Ok (s, ev)
    /\ createBlueprint 0 title_field (StringTerm "car") sample_fieldIndexes s =
         Ok (Some (EmptyBlueprint title_field), []).
Proof.
  eexists _, _. split; [reflexivity|].
  eapply (pruned_field_stays_hidden sample_schema 1 2 3
           [OpPrune (Schema.mk [Schema.mkIndexField "body" 0 1]);
            OpInsert 5 sample_doc; OpPrune sample_schema]
           _ _ (Schema.mk [Schema.mkIndexField "body" 0 1])).
  - vm_compute. discriminate.
  - reflexivity.
  - simpl. by left.
  - intros g Hg. apply list_elem_of_singleton in Hg as ->. discriminate.
Defined.

(** X11: as long as every schema handed to [pruneRemovedFields] still
    holds the field a name resolves to in the original schema, after any
    run [createBlueprint] for that name and a text-matching term returns a
    term blueprint over the posting list found in that field's own index,
    under a guard on that index. *)
Theorem kept_field_stays_searchable (S0 : Schema.t) (p0 p1 : InverterPtr)
    (pf : FieldIndexesPtr) (ops : list Op) (s : MemoryIndex) (ev : list Event)
    (requestContext : IRequestContext) (field : FieldSpec) (term : Node)
    (fieldIndexes : FieldIndexCollection) (g : Schema.IndexField)
    (fieldIndex : FieldIndex.t) :
  let fieldId := Schema.getIndexFieldId (fs_getName field) S0 in
  Schema.getNumIndexFields S0 <= Schema.UNKNOWN_FIELD_ID ->
  run ops (MemoryIndex_new S0 p0 p1 pf) = Ok (s, ev) ->
  Schema._indexFields S0 !! N.to_nat fieldId = Some g ->
  (forall pruned, pruned ∈ pruned_with ops -> g ∈ Schema._indexFields pruned) ->
  getFieldIndex fieldId fieldIndexes = Some fieldIndex ->
  isTextMatching term = true ->
  createBlueprint requestContext field term fieldIndexes s =
    Ok (Some (MemTerm (MemTermBlueprint.new
                         (FieldIndex.takeGenerationGuard fieldIndex)
                         (FieldIndex.findFrozen (termAsString term) fieldIndex)
                         (FieldIndex.getFeatureStore fieldIndex)
                         field fieldId (fs_isFilter field))),
        [Log debug (SearchingFor (termAsString term) (fs_getName field));
         GetFieldIndex fieldId; TakeGenerationGuard fieldId;
         FindFrozen fieldId (termAsString term)]).
Proof.
  intros fieldId Hsmall Hrun Hg Hkept Hfi Htext.
  assert (term <> PredicateQuery) as Hterm by (by destruct term).
  destruct (run_pruning _ _ _ _ (MemoryIndex_new_pruning_inv S0 p0 p1 pf) Hrun)
    as (Hinv & Hsch & Heff).
  change (effectiveSchema (MemoryIndex_new S0 p0 p1 pf)) with S0 in Heff.
  change (_schema (MemoryIndex_new S0 p0 p1 pf)) with S0 in Hsch.
  assert (N.to_nat fieldId < length (Schema._indexFields S0))%nat as Hlt
    by (by eapply lookup_lt_Some).
  assert (Schema.getIndexFieldId (fs_getName field) (_schema s) = fieldId) as Hid
    by (by rewrite Hsch).
  pose proof (createBlueprint_visible requestContext field term fieldIndexes s
                fieldIndex) as Hvis.
  cbv zeta in Hvis. rewrite Hid in Hvis. apply Hvis; try done.
  - unfold Schema.getNumIndexFields in Hsmall. lia.
  - rewrite Hinv, Hsch, (hiddenFieldsFor_lookup _ _ _ Hlt). f_equal.
    apply negb_false_iff.
    apply (hasCounterpart_by_name _ _ _ g); [|done|].
    + rewrite Heff. etrans; [apply fold_intersect_size | exact Hsmall].
    + exists g. split; [|done]. rewrite Heff. apply fold_intersect_elem.
      split; [by eapply list_elem_of_lookup_2 | exact Hkept].
Qed.

Lemma kept_field_stays_searchable_witness :
  exists s ev b,
    run [OpPrune (Schema.mk [Schema.mkIndexField "title" 0 0]); OpCommit 9]
        (MemoryIndex_new sample_schema 1 2 3) = Ok (s, ev)
    /\ createBlueprint 0 title_field (PrefixTerm "car") sample_fieldIndexes s =
         Ok (Some (MemTerm b),
             [Log debug (SearchingFor "car" "title"); GetFieldIndex 0;
              TakeGenerationGuard 0; FindFrozen 0 "car"])
    /\ MemTermBlueprint._pitr b = [mkPosting 1 10; mkPosting 2 11].
Proof.
  eexists _, _, _. split; [reflexivity|]. split.
  - eapply (kept_field_stays_searchable sample_schema 1 2 3
             [OpPrune (Schema.mk [Schema.mkIndexField "title" 0 0]); OpCommit 9]
             _ _ 0 title_field (PrefixTerm "car") sample_fieldIndexes
             (Schema.mkIndexField "title" 0 0)
             (FieldIndex.mk {["car" := [mkPosting 1 10; mkPosting 2 11]]} 100 3)).
    + vm_compute. discriminate.
    + reflexivity.
    + reflexivity.
    + intros pruned Hp. apply list_elem_of_singleton in Hp as ->. by left.
    + reflexivity.
    + reflexivity.
  - reflexivity.
Defined.

(** ** Bounds and dispatch in blueprint construction *)

(** X12: when the hidden-field vector has one entry per field of the
    schema and the field index collection one field index per field,
    [createBlueprint] never reads outside either of them: it returns
    normally for every field name, for the text-matching terms and for the
    predicate query. *)
Theorem createBlueprint_stays_in_bounds (requestContext : IRequestContext)
    (field : FieldSpec) (term : Node) (fieldIndexes : FieldIndexCollection)
    (s : MemoryIndex) :
  length (_hiddenFields s) = length (Schema._indexFields (_schema s)) ->
  length fieldIndexes = length (Schema._indexFields (_schema s)) ->
  isTextMatching term = true \/ term = PredicateQuery ->
  exists result ev,
    createBlueprint requestContext field term fieldIndexes s = Ok (result, ev).
Proof.
  intros Hh Hf _. unfold createBlueprint.
  destruct (N.eqb_spec (Schema.getIndexFieldId (fs_getName field) (_schema s))
              Schema.UNKNOWN_FIELD_ID) as [E|E]; [by eexists _, _|].
  unfold Schema.getIndexFieldId in *.
  destruct (Schema.find_from (fs_getName field) (Schema._indexFields (_schema s)) 0)
    as [j|] eqn:Hfind; [|done].
  destruct (find_from_bounds _ _ _ _ Hfind) as (Hb & _).
  assert (N.to_nat j < length (_hiddenFields s))%nat as Hj by lia.
  destruct (lookup_lt_is_Some_2 _ _ Hj) as [hidden ->].
  destruct hidden; [by eexists _, _|].
  assert (N.to_nat j < length fieldIndexes)%nat as Hj' by lia.
  destruct (lookup_lt_is_Some_2 _ _ Hj') as [fieldIndex Hfi].
  change (getFieldIndex j fieldIndexes = Some fieldIndex) in Hfi.
  destruct term;
    unfold CreateBlueprintVisitor.accept,
      CreateBlueprintVisitor.handleNumberTermAsText,
      CreateBlueprintVisitor.visitTerm; simpl;
    rewrite ?Hfi; simpl; by eexists _, _.
Qed.

Lemma createBlueprint_stays_in_bounds_witness :
  exists result ev,
    createBlueprint 0 (mkFieldSpec "body" 1 0 false) (RegExpTerm "c.r")
      sample_fieldIndexes (MemoryIndex_new sample_schema 1 2 3)
    = Ok (result, ev).
Proof.
  apply (createBlueprint_stays_in_bounds 0 (mkFieldSpec "body" 1 0 false)
           (RegExpTerm "c.r") sample_fieldIndexes
           (MemoryIndex_new sample_schema 1 2 3));
    [reflexivity | reflexivity | by left].
Defined.

(** X13: the seven text-matching term kinds are all looked up the same
    way: two such nodes with the same term text get the same blueprint and
    cause the same calls, whatever their kinds (a prefix, suffix, substring
    or regular-expression node is looked up as the exact dictionary term). *)
Theorem createBlueprint_ignores_term_kind (requestContext : IRequestContext)
    (field : FieldSpec) (term term' : Node)
    (fieldIndexes : FieldIndexCollection) (s : MemoryIndex) :
  isTextMatching term = true ->
  isTextMatching term' = true ->
  termAsString term = termAsString term' ->
  createBlueprint requestContext field term fieldIndexes s =
  createBlueprint requestContext field term' fieldIndexes s.
Proof.
  intros Ht Ht' Hs. unfold createBlueprint.
  destruct (_ =? _); [done|]. destruct (_ !! _) as [[|]|]; try done.
  f_equal.
  destruct term; try discriminate Ht; destruct term'; try discriminate Ht';
    unfold CreateBlueprintVisitor.accept, CreateBlueprintVisitor.visitTerm;
    by rewrite Hs.
Qed.

Lemma createBlueprint_ignores_term_kind_witness :
  createBlueprint 0 title_field (PrefixTerm "car") sample_fieldIndexes
    (MemoryIndex_new sample_schema 1 2 3) =
  createBlueprint 0 title_field (StringTerm "car") sample_fieldIndexes
    (MemoryIndex_new sample_schema 1 2 3).
Proof.
  apply (createBlueprint_ignores_term_kind 0 title_field (PrefixTerm "car")
           (StringTerm "car") sample_fieldIndexes
           (MemoryIndex_new sample_schema 1 2 3)); reflexivity.
Defined.

(** X14: a predicate query never reaches the field index collection: when
    [createBlueprint] returns for it, no field index has been looked up,
    no generation guard taken and no posting list searched, and the result
    is not a term blueprint. *)
Theorem createBlueprint_predicate_query_reads_nothing
    (requestContext : IRequestContext) (field : FieldSpec)
    (fieldIndexes : FieldIndexCollection) (s : MemoryIndex)
    (result : option Blueprint) (ev : list Event) :
  createBlueprint requestContext field PredicateQuery fieldIndexes s =
    Ok (result, ev) ->
  ev = [] /\ forall b, result <> Some (MemTerm b).
Proof.
  unfold createBlueprint. destruct (_ =? _).
  { intros [= <- <-]. by split. }
  destruct (_ !! _) as [[|]|]; try done.
  - intros [= <- <-]. by split.
  - simpl. intros [= <- <-]. by split.
Qed.

Lemma createBlueprint_predicate_query_reads_nothing_witness :
  createBlueprint 0 title_field PredicateQuery sample_fieldIndexes
    (MemoryIndex_new sample_schema 1 2 3) = Ok (None, [])
  /\ forall b, (None : option Blueprint) <> Some (MemTerm b).
Proof.
  split; [reflexivity|].
  destruct (createBlueprint_predicate_query_reads_nothing 0 title_field
              sample_fieldIndexes (MemoryIndex_new sample_schema 1 2 3) None []
              eq_refl) as [_ H].
  exact H.
Defined.
